(** * podcastfy: the Podcast stage controller (podcastfy/core/podcast.py)

    A shallow embedding of the [Podcast] class, its [podcast_stage]
    decorator, the [rework] context manager and the three stage functions,
    followed by the properties of the pipeline that hold (or fail) on it.

    Python objects are modelled by records, [self] by explicit state
    passing, exceptions by the [Raise] outcome, and the one unbounded loop
    ([finalize]) by a fuel argument whose exhaustion is the [Unfinished]
    outcome. *)

From Stdlib Require Import ZArith String DecimalString List Bool Lia Permutation Sorted.
Import ListNotations.

Local Open Scope string_scope.
Local Open Scope list_scope.
Local Open Scope Z_scope.

(** ** Outcomes of a call *)

Inductive ExcType : Type :=
| KeyError
| TypeError
| ValueError
| AttributeError
| BackendError.   (* whatever a capability provider raises *)

Record Exc : Type := mkExc { exc_type : ExcType; exc_msg : string }.

(** A call returns, raises, or has not returned (loop still running, or a
    call that blocks for ever). *)
Inductive Result (A : Type) : Type :=
| Return (a : A)
| Raise (e : Exc)
| Unfinished.

Arguments Return {A} a.
Arguments Raise {A} e.
Arguments Unfinished {A}.

(** ** class PodcastState(Enum) *)

Inductive PodcastState : Type :=
| INITIALIZED
| TRANSCRIPT_BUILT
| AUDIO_SEGMENTS_BUILT
| STITCHED.

Definition value (s : PodcastState) : Z :=
  match s with
  | INITIALIZED => 0
  | TRANSCRIPT_BUILT => 1
  | AUDIO_SEGMENTS_BUILT => 2
  | STITCHED => 3
  end.

Definition name (s : PodcastState) : string :=
  match s with
  | INITIALIZED => "INITIALIZED"
  | TRANSCRIPT_BUILT => "TRANSCRIPT_BUILT"
  | AUDIO_SEGMENTS_BUILT => "AUDIO_SEGMENTS_BUILT"
  | STITCHED => "STITCHED"
  end.

Definition PodcastState_eqb (a b : PodcastState) : bool :=
  value a =? value b.

(** [PodcastState] derives from [Enum], not [IntEnum]: its members carry no
    ordering, and Python answers [a < b] on two members with a TypeError.
    Only [.value] can be ordered. *)
Definition enum_lt (a b : PodcastState) : Result bool :=
  Raise (mkExc TypeError
    "'<' not supported between instances of 'PodcastState' and 'PodcastState'").

(** ** Capability providers *)

Definition Path := string.

(** pydub's AudioSegment, abstracted to one sample per millisecond:
    [len] is the duration in ms and [+] is concatenation. *)
Record PydubAudioSegment : Type := mkPydub { samples : list Z }.

Definition pydub_len (a : PydubAudioSegment) : Z :=
  Z.of_nat (length (samples a)).

Definition pydub_add (a b : PydubAudioSegment) : PydubAudioSegment :=
  mkPydub (samples a ++ samples b).

Record LLMBackend : Type := mkLLM {
  generate_text : string -> Result (list (string * string))
}.

(** A method of a TTS backend is either a plain [def] or an [async def];
    [asyncio.iscoroutinefunction] tells them apart. *)
Inductive TTSMethod : Type :=
| Def (f : string -> string -> Result Path)
| AsyncDef (f : string -> string -> Result Path).

Definition iscoroutinefunction (m : TTSMethod) : bool :=
  match m with
  | Def _ => false
  | AsyncDef _ => true
  end.

(** [text_to_speech] is abstract in the base class, hence always present;
    the other two attributes are optional ([hasattr]). *)
Record TTSBackend : Type := mkTTS {
  text_to_speech : TTSMethod;
  text_to_speech_sync : option TTSMethod;
  async_text_to_speech : option TTSMethod
}.

Definition is_async (b : TTSBackend) : bool :=
  iscoroutinefunction (text_to_speech b).

Definition has_sync_and_async (b : TTSBackend) : bool :=
  match text_to_speech_sync b, async_text_to_speech b with
  | Some _, Some m => iscoroutinefunction m
  | _, _ => false
  end.

(** ** Transcript and audio data *)

(** [oid] is the identity of the Python object: [TranscriptSegment] defines
    no [__eq__], so [==] (and with it [list.index]) compares identities. *)
Record TranscriptSegment : Type := mkSegment {
  oid : nat;
  text : string;
  speaker : string;
  tts_args : list (string * string)
}.

(** [TranscriptSegment.__init__]: [tts_args or {}] (an absent or empty
    dictionary gives the empty dictionary). *)
Definition new_TranscriptSegment (id : nat) (txt spk : string)
    (args : option (list (string * string))) : TranscriptSegment :=
  mkSegment id txt spk
    (match args with
     | Some d => d
     | None => []
     end).

Record Transcript : Type := mkTranscript {
  segments : list TranscriptSegment;
  metadata : list (string * string)
}.

Record AudioSegment : Type := mkAudioSegment {
  filepath : Path;
  length_ms : Z;
  transcript_segment : option TranscriptSegment;
  _audio : option PydubAudioSegment
}.

(** What the attribute [Podcast.audio] can hold: [None], the integer that
    [sum] starts from, or a stitched pydub object. *)
Inductive AudioValue : Type :=
| PyNone
| PyInt (z : Z)
| PyAudio (a : PydubAudioSegment).

(** Truth value of [self.audio]: pydub objects define [__len__]. *)
Definition truthy (v : AudioValue) : bool :=
  match v with
  | PyNone => false
  | PyInt z => negb (z =? 0)
  | PyAudio a => negb (pydub_len a =? 0)
  end.

(** ** The stage functions as Python callables *)

(** The three undecorated functions, i.e. the [func] each [podcast_stage]
    closure captured. *)
Inductive StageFunc : Type :=
| fn_build_transcript
| fn_build_audio_segments
| fn_stitch_audio_segments.

Definition func_name (f : StageFunc) : string :=
  match f with
  | fn_build_transcript => "build_transcript"
  | fn_build_audio_segments => "build_audio_segments"
  | fn_stitch_audio_segments => "stitch_audio_segments"
  end.

Definition StageFunc_eqb (f g : StageFunc) : bool :=
  match f, g with
  | fn_build_transcript, fn_build_transcript => true
  | fn_build_audio_segments, fn_build_audio_segments => true
  | fn_stitch_audio_segments, fn_stitch_audio_segments => true
  | _, _ => false
  end.

(** [Function f] is the plain function object [f].  [BoundMethod f] is the
    attribute access [self.<name of f>]: since the class attribute was
    replaced by the decorator's [wrapper], it is a method object binding
    [self] to the wrapper around [f]. *)
Inductive Callable : Type :=
| Function (f : StageFunc)
| BoundMethod (f : StageFunc).

(** Python's [==] on these objects.  Two method objects are equal when
    they bind the same [self] to the same function; a function is equal
    only to itself; a method object and a function are never equal
    (the method's comparison declines a non-method operand, and the
    fallback is identity). *)
Definition callable_eq (a b : Callable) : bool :=
  match a, b with
  | Function f, Function g => StageFunc_eqb f g
  | BoundMethod f, BoundMethod g => StageFunc_eqb f g
  | _, _ => false
  end.

(** [self._next_stage_methods], with the insertion order [items()] follows.
    There is no entry for [STITCHED]. *)
Definition _next_stage_methods : list (PodcastState * Callable) :=
  [ (INITIALIZED, BoundMethod fn_build_transcript);
    (TRANSCRIPT_BUILT, BoundMethod fn_build_audio_segments);
    (AUDIO_SEGMENTS_BUILT, BoundMethod fn_stitch_audio_segments) ].

(** [str] of an integer. *)
Definition str_of_int (z : Z) : string := NilZero.string_of_int (Z.to_int z).

(** [repr] of a member, the text of the KeyError it causes. *)
Definition repr (s : PodcastState) : string :=
  ("<PodcastState." ++ name s ++ ": " ++ str_of_int (value s) ++ ">")%string.

Definition KeyError_on (s : PodcastState) : Exc := mkExc KeyError (repr s).

(** The lines the module prints. *)
Definition skip_line (func : StageFunc) (s : PodcastState) : string :=
  ("Cannot execute " ++ func_name func ++ " in current state " ++ name s
   ++ ". Skipping.")%string.

Definition error_line (func : StageFunc) (e : Exc) : string :=
  ("Error in " ++ func_name func ++ ": " ++ exc_msg e)%string.

Definition rewind_line (from to : PodcastState) : string :=
  ("Rewinding from " ++ name from ++ " to " ++ name to)%string.

Definition earlier_state_warning (now original : PodcastState) : string :=
  ("Warning: Podcast is now in an earlier state (" ++ name now
   ++ ") than before reworking (" ++ name original
   ++ "). You may want to call finalize() to rebuild.")%string.

(** Subscription [d[k]]; [None] stands for the KeyError. *)
Fixpoint getitem (d : list (PodcastState * Callable)) (k : PodcastState)
    : option Callable :=
  match d with
  | [] => None
  | (k', v) :: rest => if PodcastState_eqb k' k then Some v else getitem rest k
  end.

(** ** class Podcast *)

Record Podcast : Type := mkPodcast {
  content : string;
  llm_backend : LLMBackend;
  tts_backend : TTSBackend;
  default_tts_n_jobs : Z;
  state : PodcastState;
  _reworking : bool;
  transcript : option Transcript;
  audio_segments : list AudioSegment;
  audio : AudioValue;
  tts_has_async : bool
}.

Definition set_state (s : PodcastState) (p : Podcast) : Podcast :=
  mkPodcast (content p) (llm_backend p) (tts_backend p) (default_tts_n_jobs p)
            s (_reworking p) (transcript p) (audio_segments p) (audio p)
            (tts_has_async p).

Definition set_reworking (b : bool) (p : Podcast) : Podcast :=
  mkPodcast (content p) (llm_backend p) (tts_backend p) (default_tts_n_jobs p)
            (state p) b (transcript p) (audio_segments p) (audio p)
            (tts_has_async p).

Definition set_transcript (t : option Transcript) (p : Podcast) : Podcast :=
  mkPodcast (content p) (llm_backend p) (tts_backend p) (default_tts_n_jobs p)
            (state p) (_reworking p) t (audio_segments p) (audio p)
            (tts_has_async p).

Definition set_audio_segments (l : list AudioSegment) (p : Podcast) : Podcast :=
  mkPodcast (content p) (llm_backend p) (tts_backend p) (default_tts_n_jobs p)
            (state p) (_reworking p) (transcript p) l (audio p)
            (tts_has_async p).

Definition set_audio (a : AudioValue) (p : Podcast) : Podcast :=
  mkPodcast (content p) (llm_backend p) (tts_backend p) (default_tts_n_jobs p)
            (state p) (_reworking p) (transcript p) (audio_segments p) a
            (tts_has_async p).

(** ** The interpreter around [self] *)

Inductive Event : Type :=
| Printed (line : string)
| Logged (line : string)
| Exported (file : string) (a : PydubAudioSegment)
| Written (file : string) (data : string).

(** [self], the next fresh object identity, and what the run has printed
    and written so far (oldest first). *)
Record Machine : Type := mkMachine {
  self : Podcast;
  next_oid : nat;
  trace : list Event
}.

Definition M (A : Type) : Type := Machine -> Result A * Machine.

Definition ret {A} (a : A) : M A := fun m => (Return a, m).

Definition raise {A} (e : Exc) : M A := fun m => (Raise e, m).

Definition bind {A B} (c : M A) (k : A -> M B) : M B := fun m =>
  match c m with
  | (Return a, m') => k a m'
  | (Raise e, m') => (Raise e, m')
  | (Unfinished, m') => (Unfinished, m')
  end.

Notation "c ;;; k" := (bind c (fun _ => k))
  (at level 61, right associativity).

Definition update (f : Podcast -> Podcast) : M unit := fun m =>
  (Return tt, mkMachine (f (self m)) (next_oid m) (trace m)).

Definition emit (e : Event) : M unit := fun m =>
  (Return tt, mkMachine (self m) (next_oid m) (trace m ++ [e])).

Definition print (line : string) : M unit := emit (Printed line).

(** ** Podcast.__init__ *)

(** The constructor runs in a fresh interpreter; next to its outcome it
    yields what it logged.  [logging.warning] returns [None], so the
    [raise] statement in the guarded branch raises a TypeError. *)
Definition Podcast__init__ (content0 : string) (llm : LLMBackend)
    (tts : TTSBackend) (n_jobs : Z) : Result Podcast * list Event :=
  let p := mkPodcast content0 llm tts n_jobs INITIALIZED false None [] PyNone
                     (has_sync_and_async tts) in
  if (1 <? n_jobs) && negb (is_async tts) then
    (Raise (mkExc TypeError "exceptions must derive from BaseException"),
     [Logged "Synchronous TTS backend with default_tts_n_jobs > 1. Threads will be used. Consider using an asynchronous TTS backend for better performance."])
  else
    (Return p, []).

(** ** Podcast.reset_to_state *)

Definition reset_to_state (s : PodcastState) : M unit :=
  update (fun p =>
    let p1 := set_state s p in
    let p2 := set_transcript
                (if value s <? value TRANSCRIPT_BUILT then None
                 else transcript p1) p1 in
    let p3 := set_audio_segments
                (if value s <? value AUDIO_SEGMENTS_BUILT then []
                 else audio_segments p2) p2 in
    set_audio (if value s <? value STITCHED then PyNone else audio p3) p3).

(** ** Helpers of the stage bodies *)

(** The list comprehension of [build_transcript]: one fresh
    [TranscriptSegment(text, speaker)] per generated [(speaker, text)]. *)
Fixpoint make_segments (id : nat) (generated : list (string * string))
    : list TranscriptSegment :=
  match generated with
  | [] => []
  | (spk, txt) :: rest =>
      new_TranscriptSegment id txt spk None :: make_segments (S id) rest
  end.

(** [n_jobs or self.default_tts_n_jobs] *)
Definition effective_n_jobs (n_jobs : option Z) (p : Podcast) : Z :=
  match n_jobs with
  | Some n => if n =? 0 then default_tts_n_jobs p else n
  | None => default_tts_n_jobs p
  end.

(** The loop over [as_completed]: futures are visited in completion
    order, each result appended to [self.audio_segments]; [future.result()]
    re-raises the exception of a failed call. *)
Fixpoint collect_completed (futures : list (Result AudioSegment))
    (order : list nat) (acc : list AudioSegment)
    : Result unit * list AudioSegment :=
  match order with
  | [] => (Return tt, acc)
  | i :: rest =>
      match nth_error futures i with
      | Some (Return clip) => collect_completed futures rest (acc ++ [clip])
      | Some (Raise e) => (Raise e, acc)
      | Some Unfinished => (Unfinished, acc)
      | None => collect_completed futures rest acc
      end
  end.

(** [asyncio.gather]: the first task to fail decides; otherwise the results
    come back in the order the tasks were passed. *)
Fixpoint first_failure (tasks : list (Result AudioSegment)) (order : list nat)
    : option (Result (list AudioSegment)) :=
  match order with
  | [] => None
  | i :: rest =>
      match nth_error tasks i with
      | Some (Raise e) => Some (Raise e)
      | Some Unfinished => Some Unfinished
      | _ => first_failure tasks rest
      end
  end.

Fixpoint all_results (tasks : list (Result AudioSegment))
    : option (list AudioSegment) :=
  match tasks with
  | [] => Some []
  | Return clip :: rest => option_map (cons clip) (all_results rest)
  | _ :: _ => None
  end.

Definition gather (tasks : list (Result AudioSegment)) (order : list nat)
    : Result (list AudioSegment) :=
  match first_failure tasks order with
  | Some r => r
  | None =>
      match all_results tasks with
      | Some clips => Return clips
      | None => Unfinished
      end
  end.

(** [==] on two segments is identity. *)
Definition same_object (a b : TranscriptSegment) : bool :=
  Nat.eqb (oid a) (oid b).

(** [segments.index(x)]: position of the first element equal to [x];
    [None] stands for the ValueError. *)
Fixpoint index (l : list TranscriptSegment) (x : option TranscriptSegment)
    : option nat :=
  match l with
  | [] => None
  | s :: rest =>
      if match x with
         | Some y => same_object s y
         | None => false
         end
      then Some O
      else option_map S (index rest x)
  end.

(** The keys [list.sort] computes, one per clip, before it moves anything. *)
Fixpoint sort_keys (segs : list TranscriptSegment) (clips : list AudioSegment)
    : option (list (nat * AudioSegment)) :=
  match clips with
  | [] => Some []
  | c :: rest =>
      match index segs (transcript_segment c), sort_keys segs rest with
      | Some k, Some keyed => Some ((k, c) :: keyed)
      | _, _ => None
      end
  end.

(** [list.sort(key=...)] is stable: among equal keys the earlier element
    stays first. *)
Fixpoint insert_by_key {A : Type} (kx : nat * A) (l : list (nat * A))
    : list (nat * A) :=
  match l with
  | [] => [kx]
  | ky :: rest =>
      if (fst kx <=? fst ky)%nat then kx :: l
      else ky :: insert_by_key kx rest
  end.

Definition list_sort {A : Type} (l : list (nat * A)) : list (nat * A) :=
  fold_right insert_by_key [] l.

(** [sum] starts from the integer 0; [0 + a] is [a] (pydub's [__radd__]),
    and from then on [+] concatenates. *)
Definition py_add (acc : AudioValue) (a : PydubAudioSegment) : AudioValue :=
  match acc with
  | PyAudio b => PyAudio (pydub_add b a)
  | _ => PyAudio a
  end.

Definition py_sum (l : list PydubAudioSegment) : AudioValue :=
  fold_left py_add l (PyInt 0).

Definition nl : string := String (Ascii.ascii_of_nat 10) EmptyString.

(** [Transcript.__str__] *)
Definition Transcript_str (t : Transcript) : string :=
  let lines := map (fun s => (speaker s ++ ": " ++ text s)%string) (segments t) in
  let metadata_str :=
    String.concat nl
      (map (fun kv => (fst kv ++ ": " ++ snd kv)%string) (metadata t)) in
  ("Metadata:" ++ nl ++ metadata_str ++ nl ++ nl ++ "Transcript:" ++ nl
   ++ String.concat nl lines)%string.

(** [Transcript.save] *)
Definition Transcript_save (t : Transcript) (file : string) : M unit :=
  emit (Written file (Transcript_str t)).

(** ** The usage example of the module (its [__main__] block) *)

Definition DummyLLMBackend : LLMBackend :=
  mkLLM (fun _ => Return [ ("Host", "Welcome to our podcast!");
                           ("Guest", "Thanks for having me!") ]).

(** Every call writes one second of silence to a file of its own. *)
Definition DummyTTSBackend : TTSBackend :=
  mkTTS (Def (fun txt _ => Return ("/tmp/" ++ txt ++ ".mp3")%string)) None None.

Definition silent (duration : nat) : PydubAudioSegment :=
  mkPydub (repeat 0 duration).

Definition dummy_from_file (_ : Path) : Result PydubAudioSegment :=
  Return (silent 1000).

Definition sample_content : string :=
  "This is a sample content for our podcast.".

(** A caller's block inside a rework scope:
    [podcast.transcript.segments.append(TranscriptSegment(txt, spk))]. *)
Definition append_segment (txt spk : string) : M unit := fun m =>
  match transcript (self m) with
  | None =>
      (Raise (mkExc AttributeError "'NoneType' object has no attribute 'segments'"), m)
  | Some t =>
      let seg := new_TranscriptSegment (next_oid m) txt spk None in
      (Return tt,
       mkMachine
         (set_transcript (Some (mkTranscript (segments t ++ [seg]) (metadata t)))
                         (self m))
         (S (next_oid m)) (trace m))
  end.

(** ** Further fixtures *)

(** A scheduler under which calls finish in the order they were submitted. *)
Definition in_submission_order (n : nat) : list nat := seq 0 n.

(** A blocking backend whose call for the guest's line fails. *)
Definition FlakyTTSBackend : TTSBackend :=
  mkTTS (Def (fun txt _ =>
                if String.eqb txt "Thanks for having me!"
                then Raise (mkExc BackendError "synthesis failed")
                else Return ("/tmp/" ++ txt ++ ".mp3")%string))
        None None.

Definition host_segment : TranscriptSegment :=
  mkSegment 0 "Welcome to our podcast!" "Host" [].

Definition guest_segment : TranscriptSegment :=
  mkSegment 1 "Thanks for having me!" "Guest" [].

Definition dummy_transcript : Transcript :=
  mkTranscript [host_segment; guest_segment] [("source", "Generated content")].

Definition clip_of (s : TranscriptSegment) : AudioSegment :=
  mkAudioSegment ("/tmp/" ++ text s ++ ".mp3")%string 1000 (Some s) None.

(** The podcast of the usage example, right after its construction. *)
Definition new_podcast : Podcast :=
  mkPodcast sample_content DummyLLMBackend DummyTTSBackend 1
            INITIALIZED false None [] PyNone false.

Definition new_machine : Machine := mkMachine new_podcast 0 [].

(** A podcast whose transcript is built, and the same one inside a rework
    scope, where stage functions may be called by hand. *)
Definition podcast_with_transcript (tts : TTSBackend) (t : Transcript)
    (reworking : bool) : Podcast :=
  mkPodcast sample_content DummyLLMBackend tts 1
            TRANSCRIPT_BUILT reworking (Some t) [] PyNone false.

(** A podcast with an empty list of clips, ready for stitching. *)
Definition podcast_without_clips (reworking : bool) : Podcast :=
  mkPodcast sample_content DummyLLMBackend DummyTTSBackend 1
            AUDIO_SEGMENTS_BUILT reworking (Some dummy_transcript) [] PyNone false.

(** A completed podcast: two segments, their two clips, the stitched audio. *)
Definition stitched_podcast : Podcast :=
  mkPodcast sample_content DummyLLMBackend DummyTTSBackend 1
            STITCHED false (Some dummy_transcript)
            [clip_of host_segment; clip_of guest_segment]
            (PyAudio (silent 2000)) false.

Definition stitched_machine : Machine := mkMachine stitched_podcast 2 [].

(** A transcript in which one segment object occurs twice, as a caller can
    make it inside a rework scope by appending [segments[0]] again. *)
Definition repeating_transcript : Transcript :=
  mkTranscript [host_segment; guest_segment; host_segment]
               [("source", "Generated content")].

(** A scheduler under which the call submitted last finishes first. *)
Definition latest_first (n : nat) : list nat := rev (seq 0 n).

Definition transcript_machine (tts : TTSBackend) (t : Transcript)
    (reworking : bool) : Machine :=
  mkMachine (podcast_with_transcript tts t reworking) 2 [].

Definition no_clips_machine (reworking : bool) : Machine :=
  mkMachine (podcast_without_clips reworking) 2 [].

(** A caller's block that fails partway. *)
Definition failing_block : M unit :=
  append_segment "This is a new segment" "Host" ;;;
  raise (mkExc ValueError "edit failed").

(** ** Fixtures for the remaining functions *)

(** A backend with both optional methods, and an [async def text_to_speech]. *)
Definition AsyncTTSBackend : TTSBackend :=
  mkTTS (AsyncDef (fun txt _ => Return ("/tmp/" ++ txt ++ ".mp3")%string))
        (Some (Def (fun txt _ => Return ("/tmp/" ++ txt ++ ".mp3")%string)))
        (Some (AsyncDef (fun txt _ => Return ("/tmp/" ++ txt ++ ".mp3")%string))).

(** The same, except that the coroutine for the host's line fails. *)
Definition AsyncFlakyTTSBackend : TTSBackend :=
  mkTTS (AsyncDef (fun txt _ =>
                     if String.eqb txt "Welcome to our podcast!"
                     then Raise (mkExc BackendError "synthesis failed")
                     else Return ("/tmp/" ++ txt ++ ".mp3")%string))
        (Some (Def (fun txt _ => Return ("/tmp/" ++ txt ++ ".mp3")%string)))
        (Some (AsyncDef (fun txt _ => Return ("/tmp/" ++ txt ++ ".mp3")%string))).

(** A backend with both optional methods whose [text_to_speech] itself is
    a plain [def]. *)
Definition MixedTTSBackend : TTSBackend :=
  mkTTS (Def (fun txt _ => Return ("/tmp/" ++ txt ++ ".mp3")%string))
        (Some (Def (fun txt _ => Return ("/tmp/" ++ txt ++ ".mp3")%string)))
        (Some (AsyncDef (fun txt _ => Return ("/tmp/" ++ txt ++ ".mp3")%string))).

(** A podcast with its transcript built, inside a rework scope, as the
    constructor sets it up for the backend [tts] and [n_jobs] default jobs. *)
Definition reworked_podcast (tts : TTSBackend) (n_jobs : Z) (t : Transcript)
    : Podcast :=
  mkPodcast sample_content DummyLLMBackend tts n_jobs
            TRANSCRIPT_BUILT true (Some t) [] PyNone (has_sync_and_async tts).

Definition reworked_machine (tts : TTSBackend) (n_jobs : Z) (t : Transcript)
    : Machine :=
  mkMachine (reworked_podcast tts n_jobs t) 2 [].

(** A podcast holding the two clips of the usage example, not yet
    stitched. *)
Definition podcast_with_clips : Podcast :=
  mkPodcast sample_content DummyLLMBackend DummyTTSBackend 1
            AUDIO_SEGMENTS_BUILT true (Some dummy_transcript)
            [clip_of host_segment; clip_of guest_segment] PyNone false.

Definition clips_machine : Machine := mkMachine podcast_with_clips 2 [].

(** A decoder that cannot read any file. *)
Definition broken_from_file (_ : Path) : Result PydubAudioSegment :=
  Raise (mkExc BackendError "could not decode").

(** A clip that claims half a second for a file holding a whole one. *)
Definition mislabelled_clip : AudioSegment :=
  mkAudioSegment "/tmp/new.mp3" 500 None None.

(** A fresh podcast inside a rework scope entered at once. *)
Definition new_machine_in_rework : Machine :=
  mkMachine (set_reworking true new_podcast) 0 [].

(** * podcastfy/utils/config.py *)

(** What [yaml.safe_load] returns, floating-point scalars left out;
    mappings have string keys, and the first binding of a key counts. *)
#[local] Set Warnings "-register-all".

Inductive Yaml : Type :=
| YNull
| YBool (b : bool)
| YInt (z : Z)
| YStr (s : string)
| YList (l : list Yaml)
| YMap (d : list (string * Yaml)).

(** Truth value of a loaded value. *)
Definition yaml_truthy (v : Yaml) : bool :=
  match v with
  | YNull => false
  | YBool b => b
  | YInt z => negb (z =? 0)
  | YStr s => negb (String.eqb s "")
  | YList l => match l with [] => false | _ :: _ => true end
  | YMap d => match d with [] => false | _ :: _ => true end
  end.

Fixpoint lookup (d : list (string * Yaml)) (key : string) : option Yaml :=
  match d with
  | [] => None
  | (k, v) :: rest => if String.eqb k key then Some v else lookup rest key
  end.

(** [v[key]] with a string key: KeyError on a mapping without the key,
    TypeError on anything that is not a mapping. *)
Definition subscript (v : Yaml) (key : string) : Result Yaml :=
  match v with
  | YMap d =>
      match lookup d key with
      | Some x => Return x
      | None => Raise (mkExc KeyError ("'" ++ key ++ "'")%string)
      end
  | YNull => Raise (mkExc TypeError "'NoneType' object is not subscriptable")
  | YBool _ => Raise (mkExc TypeError "'bool' object is not subscriptable")
  | YInt _ => Raise (mkExc TypeError "'int' object is not subscriptable")
  | YStr _ => Raise (mkExc TypeError "string indices must be integers")
  | YList _ =>
      Raise (mkExc TypeError "list indices must be integers or slices, not str")
  end.

(** What the module sees of the outside: the environment once
    [load_dotenv] has run, what opening and loading [config.yaml] gives,
    and what [os.makedirs(path, exist_ok=True)] does for a path. *)
Record ConfigWorld : Type := mkConfigWorld {
  getenv : string -> option string;
  config_yaml : Result Yaml;
  makedirs : string -> Result unit
}.

Inductive ConfigEvent : Type :=
| MadeDirs (path : string)
| PrintedLine (line : string).

Record Config : Type := mkConfig {
  JINA_API_KEY : string;
  GEMINI_API_KEY : string;
  OPENAI_API_KEY : string;
  ELEVENLABS_API_KEY : string;
  config : Yaml;
  TRANSCRIPT_OUTPUT_DIR : Yaml;
  AUDIO_OUTPUT_DIR : Yaml
}.

(** [os.getenv(key, "")] *)
Definition getenv_or_empty (w : ConfigWorld) (key : string) : string :=
  match getenv w key with
  | Some v => v
  | None => ""
  end.

(** [os.makedirs(v, exist_ok=True)] on a loaded value: anything but a
    string is no path. *)
Definition makedirs_value (w : ConfigWorld) (v : Yaml)
    : Result unit * list ConfigEvent :=
  match v with
  | YStr path =>
      match makedirs w path with
      | Return _ => (Return tt, [MadeDirs path])
      | Raise e => (Raise e, [])
      | Unfinished => (Unfinished, [])
      end
  | _ =>
      (Raise (mkExc TypeError "expected str, bytes or os.PathLike object"), [])
  end.

Definition and_then {A B : Type} (r : Result A) (k : A -> Result B) : Result B :=
  match r with
  | Return a => k a
  | Raise e => Raise e
  | Unfinished => Unfinished
  end.

(** [Config.__init__]; next to its outcome, the directories it made. *)
Definition Config__init__ (w : ConfigWorld) : Result Config * list ConfigEvent :=
  match config_yaml w with
  | Raise e => (Raise e, [])
  | Unfinished => (Unfinished, [])
  | Return cfg =>
      match and_then (subscript cfg "output_directories")
                     (fun dirs => subscript dirs "transcripts") with
      | Raise e => (Raise e, [])
      | Unfinished => (Unfinished, [])
      | Return transcripts =>
          match and_then (subscript cfg "output_directories")
                         (fun dirs => subscript dirs "audio") with
          | Raise e => (Raise e, [])
          | Unfinished => (Unfinished, [])
          | Return audio_dir =>
              let c := mkConfig (getenv_or_empty w "JINA_API_KEY")
                                (getenv_or_empty w "GEMINI_API_KEY")
                                (getenv_or_empty w "OPENAI_API_KEY")
                                (getenv_or_empty w "ELEVENLABS_API_KEY")
                                cfg transcripts audio_dir in
              match makedirs_value w transcripts with
              | (Return _, made) =>
                  match makedirs_value w audio_dir with
                  | (Return _, made') => (Return c, made ++ made')
                  | (Raise e, made') => (Raise e, made ++ made')
                  | (Unfinished, made') => (Unfinished, made ++ made')
                  end
              | (Raise e, made) => (Raise e, made)
              | (Unfinished, made) => (Unfinished, made)
              end
          end
      end
  end.

(** [Config.get]: [self.config.get(key, default)]. *)
Definition Config_get (c : Config) (key : string) (default : Yaml) : Result Yaml :=
  match config c with
  | YMap d =>
      match lookup d key with
      | Some v => Return v
      | None => Return default
      end
  | _ => Raise (mkExc AttributeError "object has no attribute 'get'")
  end.

Definition load_config (w : ConfigWorld) : Result Config * list ConfigEvent :=
  Config__init__ w.

(** The keys [main] asks for, in its order. *)
Definition checked_keys : list string :=
  [ "EMAIL_ADDRESS"; "EMAIL_PASSWORD"; "JINA_API_KEY"; "GEMINI_API_KEY";
    "ELEVENLABS_API_KEY"; "OPENAI_API_KEY" ].

(** One [print(f"{key}: {'Set' if config.get(key) else 'Not set'}")]. *)
Definition status_line (c : Config) (key : string) : Result string :=
  and_then (Config_get c key YNull)
           (fun v => Return (key ++ ": "
                             ++ (if yaml_truthy v then "Set" else "Not set"))%string).

Fixpoint status_lines (c : Config) (keys : list string) : Result (list string) :=
  match keys with
  | [] => Return []
  | key :: rest =>
      and_then (status_line c key)
               (fun line => and_then (status_lines c rest)
                                     (fun lines => Return (line :: lines)))
  end.

(** The loop that fills [missing_config]. *)
Fixpoint missing_config (c : Config) (keys : list string) : Result (list string) :=
  match keys with
  | [] => Return []
  | key :: rest =>
      and_then (Config_get c key YNull)
               (fun v => and_then (missing_config c rest)
                                  (fun missing =>
                                     Return (if yaml_truthy v then missing
                                             else key :: missing)))
  end.

(** What [main] prints once the configuration is loaded; [str_of] is
    Python's [str] on a loaded value. *)
Definition main_report (str_of : Yaml -> string) (c : Config) : Result (list string) :=
  and_then (status_lines c checked_keys) (fun statuses =>
  and_then (missing_config c checked_keys) (fun missing =>
  and_then (Config_get c "NON_EXISTENT_KEY" (YStr "Default Value")) (fun v =>
    Return
      (["Testing Config class:"] ++ statuses
       ++ match missing with
          | [] => [(nl ++ "All configuration values are set.")%string]
          | _ :: _ =>
              [(nl ++ "Warning: The following configuration values are missing:")%string]
              ++ map (fun config_name => ("- " ++ config_name)%string) missing
              ++ ["Please ensure these are set in your .env file."]
          end
       ++ [(nl ++ "Testing get method with default value:")%string;
           ("NON_EXISTENT_KEY: " ++ str_of v)%string])))).

(** [main]: the directories made and the lines printed, in order. *)
Definition main (str_of : Yaml -> string) (seed : Z) (w : ConfigWorld)
    : Result unit * list ConfigEvent :=
  match load_config w with
  | (Return c, made) =>
      match main_report str_of c with
      | Return lines => (Return tt, made ++ map PrintedLine lines)
      | Raise e => (Raise e, made)
      | Unfinished => (Unfinished, made)
      end
  | (Raise e, made) => (Raise e, made)
  | (Unfinished, made) => (Unfinished, made)
  end.

(** A configuration file with the two directories and nothing else, and an
    environment with every API key set. *)
Definition plain_yaml : Yaml :=
  YMap [ ("output_directories",
          YMap [ ("transcripts", YStr "./data/transcripts");
                 ("audio", YStr "./data/audio") ]) ].

Definition full_environment (key : string) : option string := Some "secret".

Definition plain_world : ConfigWorld :=
  mkConfigWorld full_environment (Return plain_yaml) (fun _ => Return tt).

(** A configuration file that names only the transcripts directory. *)
Definition half_yaml : Yaml :=
  YMap [ ("output_directories",
          YMap [ ("transcripts", YStr "./data/transcripts") ]) ].

Definition half_world : ConfigWorld :=
  mkConfigWorld full_environment (Return half_yaml) (fun _ => Return tt).

(** Python's [str] on the scalars. *)
Definition str_of_scalar (v : Yaml) : string :=
  match v with
  | YNull => "None"
  | YBool true => "True"
  | YBool false => "False"
  | YInt z => str_of_int z
  | YStr s => s
  | _ => "..."
  end.

(** The configuration built in [plain_world]. *)
Definition plain_config : Config :=
  mkConfig "secret" "secret" "secret" "secret" plain_yaml
           (YStr "./data/transcripts") (YStr "./data/audio").

(** ** The pipeline, relative to its two outside collaborators *)

Section Pipeline.

(** [PydubAudioSegment.from_file], the decoder. *)
Variable from_file : Path -> Result PydubAudioSegment.

(** The scheduler: for a batch of [n] synthesis calls submitted together,
    [completion_order n] lists their indices in the order they finish. *)
Variable completion_order : nat -> list nat.

(** [AudioSegment(audio_file, len(audio_segment), segment)] after decoding. *)
Definition decode_clip (audio_file : Path) (segment : TranscriptSegment)
    : Result AudioSegment :=
  match from_file audio_file with
  | Return a => Return (mkAudioSegment audio_file (pydub_len a) (Some segment) None)
  | Raise e => Raise e
  | Unfinished => Unfinished
  end.

(** [Podcast._sync_text_to_speech].  Called on an [async def] backend the
    method gets a coroutine object instead of a path, which the decoder
    cannot open. *)
Definition _sync_text_to_speech (tts : TTSBackend) (segment : TranscriptSegment)
    : Result AudioSegment :=
  match text_to_speech tts with
  | Def f =>
      match f (text segment) (speaker segment) with
      | Return audio_file => decode_clip audio_file segment
      | Raise e => Raise e
      | Unfinished => Unfinished
      end
  | AsyncDef _ =>
      Raise (mkExc AttributeError "'coroutine' object has no attribute 'read'")
  end.

(** [Podcast._async_text_to_speech].  On a plain [def] backend the call
    itself runs, and awaiting the path it returned is a TypeError. *)
Definition _async_text_to_speech (tts : TTSBackend) (segment : TranscriptSegment)
    : Result AudioSegment :=
  match text_to_speech tts with
  | AsyncDef f =>
      match f (text segment) (speaker segment) with
      | Return audio_file => decode_clip audio_file segment
      | Raise e => Raise e
      | Unfinished => Unfinished
      end
  | Def f =>
      match f (text segment) (speaker segment) with
      | Return _ =>
          Raise (mkExc TypeError "object PosixPath can't be used in 'await' expression")
      | Raise e => Raise e
      | Unfinished => Unfinished
      end
  end.

(** The property [AudioSegment.audio]: lazy load, cached in [_audio] before
    the length is checked. *)
Definition AudioSegment_audio (x : AudioSegment)
    : Result PydubAudioSegment * AudioSegment :=
  match _audio x with
  | Some a => (Return a, x)
  | None =>
      match from_file (filepath x) with
      | Return a =>
          let x' := mkAudioSegment (filepath x) (length_ms x)
                                   (transcript_segment x) (Some a) in
          if pydub_len a =? length_ms x then (Return a, x')
          else (Raise (mkExc ValueError
                  ("Audio file length (" ++ str_of_int (pydub_len a)
                   ++ "ms) does not match specified length ("
                   ++ str_of_int (length_ms x) ++ "ms)")%string), x')
      | Raise e => (Raise e, x)
      | Unfinished => (Unfinished, x)
      end
  end.

(** [[segment.audio for segment in self.audio_segments]]; the clips are
    returned too, since loading fills their caches. *)
Fixpoint load_all (clips : list AudioSegment)
    : Result (list PydubAudioSegment) * list AudioSegment :=
  match clips with
  | [] => (Return [], [])
  | x :: rest =>
      match AudioSegment_audio x with
      | (Return a, x') =>
          match load_all rest with
          | (Return l, rest') => (Return (a :: l), x' :: rest')
          | (Raise e, rest') => (Raise e, x' :: rest')
          | (Unfinished, rest') => (Unfinished, x' :: rest')
          end
      | (Raise e, x') => (Raise e, x' :: rest)
      | (Unfinished, x') => (Unfinished, x' :: rest)
      end
  end.

(** *** The undecorated stage functions *)

Definition build_transcript_body : M unit := fun m =>
  match generate_text (llm_backend (self m)) (content (self m)) with
  | Return generated_segments =>
      let segs := make_segments (next_oid m) generated_segments in
      (Return tt,
       mkMachine
         (set_transcript
            (Some (mkTranscript segs [("source", "Generated content")]))
            (self m))
         (next_oid m + length segs)%nat (trace m))
  | Raise e => (Raise e, m)
  | Unfinished => (Unfinished, m)
  end.

(** The closing [self.audio_segments.sort(key=...)]. *)
Definition sort_audio_segments : M unit := fun m =>
  match transcript (self m) with
  | None =>
      (Raise (mkExc AttributeError "'NoneType' object has no attribute 'segments'"), m)
  | Some t =>
      match sort_keys (segments t) (audio_segments (self m)) with
      | Some keyed =>
          update (set_audio_segments (map snd (list_sort keyed))) m
      | None =>
          (* the message names the object looked for *)
          (Raise (mkExc ValueError "<TranscriptSegment object> is not in list"), m)
      end
  end.

Definition build_audio_segments_body (n_jobs : option Z) : M unit := fun m =>
  let p := self m in
  let n := effective_n_jobs n_jobs p in
  if tts_has_async p then
    if n <? 0 then
      (Raise (mkExc ValueError "Semaphore initial value must be >= 0"), m)
    else
      match transcript p with
      | None =>
          (Raise (mkExc AttributeError "'NoneType' object has no attribute 'segments'"), m)
      | Some t =>
          let tasks := map (_async_text_to_speech (tts_backend p)) (segments t) in
          match tasks with
          | [] => (update (set_audio_segments []) ;;; sort_audio_segments) m
          | _ :: _ =>
              if n =? 0 then (Unfinished, m)   (* nobody ever gets the semaphore *)
              else
                match gather tasks (completion_order (length tasks)) with
                | Return clips =>
                    (update (set_audio_segments clips) ;;; sort_audio_segments) m
                | Raise e => (Raise e, m)
                | Unfinished => (Unfinished, m)
                end
          end
      end
  else
    if n <=? 0 then
      (Raise (mkExc ValueError "max_workers must be greater than 0"), m)
    else
      match transcript p with
      | None =>
          (Raise (mkExc AttributeError "'NoneType' object has no attribute 'segments'"), m)
      | Some t =>
          let futures := map (_sync_text_to_speech (tts_backend p)) (segments t) in
          match collect_completed futures (completion_order (length futures)) [] with
          | (Return _, clips) =>
              (update (set_audio_segments clips) ;;; sort_audio_segments) m
          | (Raise e, clips) =>
              (update (set_audio_segments clips) ;;; raise e) m
          | (Unfinished, clips) =>
              (update (set_audio_segments clips) ;;; (fun m' => (Unfinished, m'))) m
          end
      end.

Definition stitch_audio_segments_body : M unit := fun m =>
  match load_all (audio_segments (self m)) with
  | (Return l, clips) =>
      update (fun p => set_audio (py_sum l) (set_audio_segments clips p)) m
  | (Raise e, clips) => (update (set_audio_segments clips) ;;; raise e) m
  | (Unfinished, clips) =>
      (update (set_audio_segments clips) ;;; (fun m' => (Unfinished, m'))) m
  end.

(** [func(self, *args, **kwargs)] *)
Definition call_func (func : StageFunc) (n_jobs : option Z) : M unit :=
  match func with
  | fn_build_transcript => build_transcript_body
  | fn_build_audio_segments => build_audio_segments_body n_jobs
  | fn_stitch_audio_segments => stitch_audio_segments_body
  end.

(** *** The decorator *)

(** [next((state for state, method in items if method == func), None)] *)
Fixpoint next_state_of (func : StageFunc) (items : list (PodcastState * Callable))
    : option PodcastState :=
  match items with
  | [] => None
  | (st, method) :: rest =>
      if callable_eq method (Function func) then Some st
      else next_state_of func rest
  end.

Definition podcast_stage (func : StageFunc) (n_jobs : option Z) : M unit :=
  fun m =>
  match getitem _next_stage_methods (state (self m)) with
  | None => (Raise (KeyError_on (state (self m))), m)
  | Some current_method =>
      if negb (callable_eq current_method (Function func))
         && negb (_reworking (self m))
      then
        print (skip_line func (state (self m))) m
      else
        match call_func func n_jobs m with
        | (Return _, m1) =>
            let next_state := next_state_of func _next_stage_methods in
            update (fun p => set_state
                               (match next_state with
                                | Some s => s        (* every member is truthy *)
                                | None => state p
                                end) p) m1
        | (Raise e, m1) =>
            (print (error_line func e) ;;; raise e) m1
        | (Unfinished, m1) => (Unfinished, m1)
        end
  end.

(** The three decorated methods. *)
Definition build_transcript : M unit :=
  podcast_stage fn_build_transcript None.

Definition build_audio_segments (n_jobs : option Z) : M unit :=
  podcast_stage fn_build_audio_segments n_jobs.

Definition stitch_audio_segments : M unit :=
  podcast_stage fn_stitch_audio_segments None.

(** Calling an entry of [_next_stage_methods] without arguments. *)
Definition call (c : Callable) : M unit :=
  match c with
  | BoundMethod f => podcast_stage f None
  | Function f => call_func f None
  end.

(** *** Driving the stages *)

Definition _build_next_stage : M bool := fun m =>
  if PodcastState_eqb (state (self m)) STITCHED then (Return false, m)
  else
    match getitem _next_stage_methods (state (self m)) with
    | None => (Raise (KeyError_on (state (self m))), m)
    | Some next_method => (call next_method ;;; ret true) m
    end.

(** [while self._build_next_stage(): pass], at most [fuel] iterations. *)
Fixpoint finalize (fuel : nat) : M unit := fun m =>
  match fuel with
  | O => (Unfinished, m)
  | S fuel' =>
      match _build_next_stage m with
      | (Return true, m') => finalize fuel' m'
      | (Return false, m') => (Return tt, m')
      | (Raise e, m') => (Raise e, m')
      | (Unfinished, m') => (Unfinished, m')
      end
  end.

(** *** The rework context manager *)

(** The code of [rework] before its [yield]. *)
Definition rework_enter (target_state : PodcastState) : M unit := fun m =>
  (update (set_reworking true) ;;;
   (fun m1 =>
      if value target_state <? value (state (self m1)) then
        (print (rewind_line (state (self m1)) target_state) ;;;
         reset_to_state target_state) m1
      else (Return tt, m1))) m.

(** Leaving a [finally] clause that was entered with the pending outcome
    [r] of the guarded block: when the clause ran to its end, [r] takes
    effect again (a pending exception goes on propagating); an exception
    raised inside the clause replaces [r]. *)
Definition leave_finally {A : Type} (r : Result A)
    (clause : Result unit * Machine) : Result A * Machine :=
  match clause with
  | (Return _, m) => (r, m)
  | (Raise e, m) => (Raise e, m)
  | (Unfinished, m) => (Unfinished, m)
  end.

(** The [finally] clause of [rework]. *)
Definition rework_exit (fuel : nat) (original_state : PodcastState)
    (auto_finalize : bool) : M unit :=
  update (set_reworking false) ;;;
  (fun m1 =>
     if value (state (self m1)) <? value original_state then
       (print (earlier_state_warning (state (self m1)) original_state) ;;;
        (fun m2 => if auto_finalize then finalize fuel m2 else (Return tt, m2))) m1
     else (Return tt, m1)).

(** [with podcast.rework(target_state, auto_finalize): block] *)
Definition rework (fuel : nat) (target_state : PodcastState)
    (auto_finalize : bool) (block : M unit) : M unit := fun m =>
  let original_state := state (self m) in
  match rework_enter target_state m with
  | (Return _, m1) =>
      match block m1 with
      | (Unfinished, m2) => (Unfinished, m2)    (* the block never ends *)
      | (r, m2) => leave_finally r (rework_exit fuel original_state auto_finalize m2)
      end
  | (Raise e, m1) => (Raise e, m1)
  | (Unfinished, m1) => (Unfinished, m1)
  end.

(** *** Saving *)

Definition save (file : string) : M unit := fun m =>
  if negb (PodcastState_eqb (state (self m)) STITCHED) then
    (Raise (mkExc ValueError "Podcast can only be saved after audio is stitched"), m)
  else if truthy (audio (self m)) then
    match audio (self m) with
    | PyAudio a => emit (Exported file a) m
    | _ => (Raise (mkExc AttributeError "'int' object has no attribute 'export'"), m)
    end
  else
    (Raise (mkExc ValueError "No stitched audio to save"), m).

Definition save_transcript (file : string) (format : string) : M unit := fun m =>
  match enum_lt (state (self m)) TRANSCRIPT_BUILT with
  | Return true =>
      (Raise (mkExc ValueError "Transcript can only be saved after it is built"), m)
  | Return false =>
      match transcript (self m) with
      | Some t => Transcript_save t file m
      | None => (Raise (mkExc ValueError "No transcript to save"), m)
      end
  | Raise e => (Raise e, m)
  | Unfinished => (Unfinished, m)
  end.

(** ** Vocabulary of the properties *)

(** Two machines agree on the controller's position: the state and the
    rework flag. *)
Definition same_stage (m m' : Machine) : Prop :=
  state (self m') = state (self m)
  /\ _reworking (self m') = _reworking (self m).

(** The podcast as the exit clause leaves it: flag cleared, and the
    warning printed when the state is earlier than at entry. *)
Definition cleared (m2 : Machine) : Machine :=
  mkMachine (set_reworking false (self m2)) (next_oid m2) (trace m2).

Definition warned (original_state : PodcastState) (m2 : Machine) : Machine :=
  mkMachine (set_reworking false (self m2)) (next_oid m2)
            (trace m2 ++ [Printed (earlier_state_warning (state (self m2))
                                                         original_state)]).

(** The call [build_audio_segments] dispatches for one segment of the
    podcast [p]: the coroutine on the asyncio path, the blocking method on
    the thread-pool path. *)
Definition synthesis_call (p : Podcast) (s : TranscriptSegment)
    : Result AudioSegment :=
  if tts_has_async p then _async_text_to_speech (tts_backend p) s
  else _sync_text_to_speech (tts_backend p) s.

(** The clips of the calls listed in [order], each with its position in
    the batch. *)
Definition keyed_in (clips : list AudioSegment) (order : list nat)
    : list (nat * AudioSegment) :=
  flat_map (fun i => match nth_error clips i with
                     | Some c => [(i, c)]
                     | None => []
                     end) order.

(** No data of a stage later than the state is present. *)
Definition no_later_data (p : Podcast) : Prop :=
  (value (state p) < value TRANSCRIPT_BUILT -> transcript p = None)
  /\ (value (state p) < value AUDIO_SEGMENTS_BUILT -> audio_segments p = [])
  /\ (value (state p) < value STITCHED -> audio p = PyNone).

(** The call at position [i] of a batch has not failed. *)
Definition not_failed (results : list (Result AudioSegment)) (i : nat) : Prop :=
  match nth_error results i with
  | Some (Raise _) => False
  | Some Unfinished => False
  | _ => True
  end.

(** The clips of the calls listed in [order] that returned one, in that
    order. *)
Definition arrived (results : list (Result AudioSegment)) (order : list nat)
    : list AudioSegment :=
  flat_map (fun i => match nth_error results i with
                     | Some (Return c) => [c]
                     | _ => []
                     end) order.

(** The durations the clips claim, added up. *)
Definition total_length_ms (clips : list AudioSegment) : Z :=
  fold_right (fun x acc => length_ms x + acc) 0 clips.

(** The position [list.sort] files a clip under: the first position of its
    segment in the transcript. *)
Definition sort_key (segs : list TranscriptSegment) (c : AudioSegment) : nat :=
  match index segs (transcript_segment c) with
  | Some k => k
  | None => O
  end.

(** A clip as the [audio] property leaves it once [a] is loaded. *)
Definition with_audio (x : AudioSegment) (a : PydubAudioSegment) : AudioSegment :=
  mkAudioSegment (filepath x) (length_ms x) (transcript_segment x) (Some a).

(** What the decoder makes of the file of a clip. *)
Definition decoded (x : AudioSegment) : PydubAudioSegment :=
  match from_file (filepath x) with
  | Return a => a
  | _ => mkPydub []
  end.

(** A clip not loaded yet whose file decodes to audio of the length the
    clip claims. *)
Definition loads_as_labelled (x : AudioSegment) : Prop :=
  _audio x = None
  /\ exists a, from_file (filepath x) = Return a /\ pydub_len a = length_ms x.

(** What a clip says about itself, its cache apart. *)
Definition label (x : AudioSegment) : Path * Z * option TranscriptSegment :=
  (filepath x, length_ms x, transcript_segment x).

(** The order [list.sort] establishes on keyed elements. *)
Definition le_key {A : Type} (a b : nat * A) : Prop := (fst a <= fst b)%nat.

(** * Properties *)

(** ** What a stage call can and cannot touch *)

Lemma same_stage_refl : forall m, same_stage m m.
Proof. intro m; split; reflexivity. Qed.

Lemma same_stage_trans :
  forall m1 m2 m3, same_stage m1 m2 -> same_stage m2 m3 -> same_stage m1 m3.
Proof.
  intros m1 m2 m3 [Hs Hr] [Hs' Hr']; split; congruence.
Qed.

Lemma sort_audio_segments_same_stage :
  forall m, same_stage m (snd (sort_audio_segments m)).
Proof.
  intro m. unfold sort_audio_segments.
  destruct (transcript (self m)) as [t|]; [|apply same_stage_refl].
  destruct (sort_keys (segments t) (audio_segments (self m)));
    split; reflexivity.
Qed.

Lemma set_then_sort_same_stage :
  forall l m,
    same_stage m (snd ((update (set_audio_segments l) ;;; sort_audio_segments) m)).
Proof.
  intros l m. unfold bind, update.
  eapply same_stage_trans; [|apply sort_audio_segments_same_stage].
  split; reflexivity.
Qed.

Lemma build_transcript_body_same_stage :
  forall m, same_stage m (snd (build_transcript_body m)).
Proof.
  intro m. unfold build_transcript_body.
  destruct (generate_text _ _); split; reflexivity.
Qed.

Lemma build_audio_segments_body_same_stage :
  forall n_jobs m, same_stage m (snd (build_audio_segments_body n_jobs m)).
Proof.
  intros n_jobs m. unfold build_audio_segments_body.
  destruct (tts_has_async (self m)).
  - destruct (_ <? 0); [apply same_stage_refl|].
    destruct (transcript (self m)) as [t|]; [|apply same_stage_refl].
    destruct (map _ (segments t)) as [|task tasks] eqn:Htasks.
    + apply set_then_sort_same_stage.
    + destruct (_ =? 0); [apply same_stage_refl|].
      destruct (gather _ _);
        [apply set_then_sort_same_stage | apply same_stage_refl ..].
  - destruct (_ <=? 0); [apply same_stage_refl|].
    destruct (transcript (self m)) as [t|]; [|apply same_stage_refl].
    destruct (collect_completed _ _ _) as [[u|e|] clips].
    + apply set_then_sort_same_stage.
    + split; reflexivity.
    + split; reflexivity.
Qed.

Lemma stitch_audio_segments_body_same_stage :
  forall m, same_stage m (snd (stitch_audio_segments_body m)).
Proof.
  intro m. unfold stitch_audio_segments_body.
  destruct (load_all _) as [[l|e|] clips]; split; reflexivity.
Qed.

Lemma call_func_same_stage :
  forall func n_jobs m, same_stage m (snd (call_func func n_jobs m)).
Proof.
  intros [] n_jobs m; simpl.
  - apply build_transcript_body_same_stage.
  - apply build_audio_segments_body_same_stage.
  - apply stitch_audio_segments_body_same_stage.
Qed.

(** No entry of [_next_stage_methods] is equal to the function a wrapper
    closes over: the entries are method objects. *)
Lemma next_state_of_None :
  forall func, next_state_of func _next_stage_methods = None.
Proof. intros []; reflexivity. Qed.

Lemma getitem_method :
  forall s c, getitem _next_stage_methods s = Some c ->
              exists f, c = BoundMethod f.
Proof.
  intros [] c H; simpl in H; inversion H; eauto.
Qed.

Lemma getitem_STITCHED :
  forall s, getitem _next_stage_methods s = None <-> s = STITCHED.
Proof.
  intros []; simpl; split; intro H; congruence.
Qed.

(** A decorated stage function never moves the state, whatever it does
    otherwise. *)
Lemma podcast_stage_same_stage :
  forall func n_jobs m, same_stage m (snd (podcast_stage func n_jobs m)).
Proof.
  intros func n_jobs m. unfold podcast_stage.
  destruct (getitem _ _) as [c|]; [|apply same_stage_refl].
  destruct (_ && _); [split; reflexivity|].
  rewrite next_state_of_None.
  pose proof (call_func_same_stage func n_jobs m) as H.
  destruct (call_func func n_jobs m) as [[u|e|] m1]; exact H.
Qed.

(** Outside a rework scope the guard of the decorator turns every call
    into the reported skip, the call of the state's own stage included. *)
Lemma podcast_stage_skips :
  forall func n_jobs m,
    _reworking (self m) = false ->
    state (self m) <> STITCHED ->
    podcast_stage func n_jobs m = print (skip_line func (state (self m))) m.
Proof.
  intros func n_jobs m Hr Hs. unfold podcast_stage.
  destruct (getitem _ _) as [c|] eqn:Hc.
  - destruct (getitem_method _ _ Hc) as [f ->]. rewrite Hr. reflexivity.
  - apply getitem_STITCHED in Hc. contradiction.
Qed.

(** Inside a rework scope the body runs, and the state stays where it is. *)
Lemma podcast_stage_reworking :
  forall func n_jobs m m1,
    _reworking (self m) = true ->
    state (self m) <> STITCHED ->
    call_func func n_jobs m = (Return tt, m1) ->
    podcast_stage func n_jobs m = (Return tt, m1).
Proof.
  intros func n_jobs m m1 Hr Hs Hcall. unfold podcast_stage.
  destruct (getitem _ _) as [c|] eqn:Hc.
  - rewrite Hr, andb_false_r, Hcall, next_state_of_None.
    unfold update. destruct m1 as [[] ? ?]; reflexivity.
  - apply getitem_STITCHED in Hc. contradiction.
Qed.

(** ** finalize *)

Lemma _build_next_stage_same_stage :
  forall m, same_stage m (snd (_build_next_stage m)).
Proof.
  intro m. unfold _build_next_stage.
  destruct (PodcastState_eqb _ _); [apply same_stage_refl|].
  destruct (getitem _ _) as [c|] eqn:Hc; [|apply same_stage_refl].
  destruct (getitem_method _ _ Hc) as [f ->]. unfold bind, call, ret.
  pose proof (podcast_stage_same_stage f None m) as H.
  destruct (podcast_stage f None m) as [[u|e|] m1]; exact H.
Qed.

Lemma _build_next_stage_not_false :
  forall m, state (self m) <> STITCHED ->
            fst (_build_next_stage m) <> Return false.
Proof.
  intros m Hs. unfold _build_next_stage.
  destruct (PodcastState_eqb _ _) eqn:He.
  - destruct (state (self m)); try discriminate He. contradiction.
  - destruct (getitem _ _) as [c|]; [|discriminate].
    unfold bind, ret. destruct (call c m) as [[u|e|] m1]; discriminate.
Qed.

(** From any state but [STITCHED], and whatever the stage functions do,
    the loop never ends normally and never reaches another state. *)
Lemma finalize_never_returns :
  forall fuel m,
    state (self m) <> STITCHED ->
    fst (finalize fuel m) <> Return tt
    /\ same_stage m (snd (finalize fuel m)).
Proof.
  induction fuel as [|fuel IH]; intros m Hs; simpl.
  - split; [discriminate | apply same_stage_refl].
  - pose proof (_build_next_stage_same_stage m) as Hsame.
    pose proof (_build_next_stage_not_false m Hs) as Hnf.
    destruct (_build_next_stage m) as [[[|]|e|] m1]; simpl in *.
    + assert (Hs1 : state (self m1) <> STITCHED)
        by (destruct Hsame as [-> _]; exact Hs).
      destruct (IH m1 Hs1) as [Hr Hst].
      split; [exact Hr | eapply same_stage_trans; eassumption].
    + contradiction.
    + split; [discriminate | exact Hsame].
    + split; [discriminate | exact Hsame].
Qed.

(** Outside a rework scope every iteration is a skip: the loop only
    prints, for ever. *)
Lemma finalize_skips_for_ever :
  forall fuel m f,
    _reworking (self m) = false ->
    getitem _next_stage_methods (state (self m)) = Some (BoundMethod f) ->
    finalize fuel m =
      (Unfinished,
       mkMachine (self m) (next_oid m)
                 (trace m ++ repeat (Printed (skip_line f (state (self m)))) fuel)).
Proof.
  induction fuel as [|fuel IH]; intros m f Hr Hc; simpl.
  - rewrite app_nil_r. destruct m; reflexivity.
  - assert (Hs : state (self m) <> STITCHED).
    { intro E. rewrite E in Hc. discriminate Hc. }
    unfold _build_next_stage.
    replace (PodcastState_eqb (state (self m)) STITCHED) with false
      by (destruct (state (self m)); try reflexivity; contradiction).
    rewrite Hc. unfold bind, call, ret.
    rewrite (podcast_stage_skips f None m Hr Hs).
    unfold print, emit.
    rewrite (IH _ f); simpl; try assumption.
    rewrite <- app_assoc. reflexivity.
Qed.

(** In [STITCHED] there is nothing left to do: no stage is run. *)
Lemma finalize_STITCHED :
  forall fuel m, state (self m) = STITCHED ->
                 finalize (S fuel) m = (Return tt, m).
Proof.
  intros fuel m Hs. simpl. unfold _build_next_stage. rewrite Hs. reflexivity.
Qed.

Lemma finalize_same_stage :
  forall fuel m, same_stage m (snd (finalize fuel m)).
Proof.
  induction fuel as [|fuel IH]; intro m; simpl.
  - apply same_stage_refl.
  - pose proof (_build_next_stage_same_stage m) as Hsame.
    destruct (_build_next_stage m) as [[[|]|e|] m1]; simpl in *;
      try exact Hsame.
    eapply same_stage_trans; [exact Hsame | apply IH].
Qed.

(** ** The rework scope *)

Lemma rework_enter_returns :
  forall target_state m, fst (rework_enter target_state m) = Return tt.
Proof.
  intros target_state m. unfold rework_enter, bind, update.
  cbv beta iota. destruct (_ <? _); reflexivity.
Qed.

Lemma rework_exit_cases :
  forall fuel original_state auto_finalize m2,
    rework_exit fuel original_state auto_finalize m2 =
      if value (state (self m2)) <? value original_state then
        if auto_finalize then finalize fuel (warned original_state m2)
        else (Return tt, warned original_state m2)
      else (Return tt, cleared m2).
Proof.
  intros. unfold rework_exit, bind, update, print, emit, warned, cleared.
  cbv beta iota. simpl. destruct (_ <? _); reflexivity.
Qed.

Lemma rework_block_ended :
  forall fuel target_state auto_finalize block m r m2,
    block (snd (rework_enter target_state m)) = (r, m2) ->
    r <> Unfinished ->
    rework fuel target_state auto_finalize block m =
      leave_finally r (rework_exit fuel (state (self m)) auto_finalize m2).
Proof.
  intros fuel target_state auto_finalize block m r m2 Hblock Hr.
  unfold rework.
  pose proof (rework_enter_returns target_state m) as He.
  destruct (rework_enter target_state m) as [re m1]; simpl in *.
  subst re. rewrite Hblock.
  destruct r as [u|e|]; [reflexivity | reflexivity | congruence].
Qed.

(** C6.  Every rework scope whose block ends, normally or by raising, runs
    its exit logic: the rework flag is false afterwards; if the state at
    the end of the block is earlier than the state at entry, the warning
    is printed and, with [auto_finalize], [finalize] is called on the
    podcast with the flag already cleared; without [auto_finalize] the
    warning is all that happens and the outcome of the block is the
    outcome of the scope, so the condition is advisory.  When the state
    is not earlier, only the flag is cleared. *)
Theorem rework_exit_logic_always_runs :
  forall fuel target_state auto_finalize block m r m2,
    block (snd (rework_enter target_state m)) = (r, m2) ->
    r <> Unfinished ->
    let out := rework fuel target_state auto_finalize block m in
    _reworking (self (snd out)) = false
    /\ (value (state (self m2)) < value (state (self m)) ->
        auto_finalize = true ->
        out = leave_finally r (finalize fuel (warned (state (self m)) m2)))
    /\ (value (state (self m2)) < value (state (self m)) ->
        auto_finalize = false ->
        out = (r, warned (state (self m)) m2))
    /\ (value (state (self m)) <= value (state (self m2)) ->
        out = (r, cleared m2)).
Proof.
  intros fuel target_state auto_finalize block m r m2 Hblock Hr out.
  subst out.
  rewrite (rework_block_ended _ _ _ _ _ _ _ Hblock Hr), rework_exit_cases.
  split; [|split; [|split]].
  - destruct (value (state (self m2)) <? value (state (self m))).
    + destruct auto_finalize.
      * pose proof (finalize_same_stage fuel (warned (state (self m)) m2))
          as [_ Hflag].
        unfold leave_finally.
        destruct (finalize fuel _) as [[u|e|] m3]; simpl in *; exact Hflag.
      * reflexivity.
    + reflexivity.
  - intros Hlt ->. apply Z.ltb_lt in Hlt. rewrite Hlt. reflexivity.
  - intros Hlt ->. apply Z.ltb_lt in Hlt. rewrite Hlt. reflexivity.
  - intros Hle. apply Z.ltb_ge in Hle. rewrite Hle. reflexivity.
Qed.

(** A scope whose block ends in an earlier state than the scope was
    entered in never hands control back when [auto_finalize] is set: the
    [finalize] of its exit clause does not end, and builds nothing. *)
Lemma rework_auto_finalize_never_exits :
  forall fuel target_state block m r m2,
    block (snd (rework_enter target_state m)) = (r, m2) ->
    r <> Unfinished ->
    value (state (self m2)) < value (state (self m)) ->
    exists m3,
      rework fuel target_state true block m = (Unfinished, m3)
      /\ self m3 = set_reworking false (self m2).
Proof.
  intros fuel target_state block m r m2 Hblock Hr Hlt.
  rewrite (rework_block_ended _ _ _ _ _ _ _ Hblock Hr), rework_exit_cases.
  apply Z.ltb_lt in Hlt. rewrite Hlt.
  assert (Hs : state (self (warned (state (self m)) m2)) <> STITCHED).
  { simpl. apply Z.ltb_lt in Hlt. intro E. rewrite E in Hlt.
    destruct (state (self m)); simpl in Hlt; lia. }
  destruct (getitem _next_stage_methods
              (state (self (warned (state (self m)) m2)))) as [c|] eqn:Hc.
  - destruct (getitem_method _ _ Hc) as [f ->].
    rewrite (finalize_skips_for_ever fuel (warned (state (self m)) m2) f eq_refl Hc).
    simpl. eexists; split; reflexivity.
  - apply getitem_STITCHED in Hc. contradiction.
Qed.

(** ** The guard of the decorator *)

(** C7.  In state [STITCHED] a call of any stage function raises KeyError
    at the lookup [self._next_stage_methods[self.state]], outside and
    inside a rework scope alike: nothing is printed, nothing is run, and
    the podcast is not touched. *)
Theorem stage_call_in_STITCHED_raises_KeyError :
  forall func n_jobs m,
    state (self m) = STITCHED ->
    podcast_stage func n_jobs m = (Raise (KeyError_on STITCHED), m).
Proof.
  intros func n_jobs m Hs. unfold podcast_stage. rewrite Hs. reflexivity.
Qed.

(** In the other three states, and outside a rework scope, a call of a
    stage function, out of turn or not, leaves the podcast as it is and
    prints the skip line. *)
Lemma stage_call_outside_rework_is_skipped :
  forall func n_jobs m,
    _reworking (self m) = false ->
    state (self m) <> STITCHED ->
    podcast_stage func n_jobs m =
      (Return tt,
       mkMachine (self m) (next_oid m)
                 (trace m ++ [Printed (skip_line func (state (self m)))])).
Proof.
  intros func n_jobs m Hr Hs.
  rewrite (podcast_stage_skips func n_jobs m Hr Hs). reflexivity.
Qed.

(** ** Stitching *)

(** C8 (as amended).  On a podcast in state [AUDIO_SEGMENTS_BUILT] whose
    list of clips is empty, [stitch_audio_segments] does not fail: it
    returns normally, and no audio artifact comes of it: [audio] is
    afterwards the integer 0, the sum of no clips, or what it was. *)
Theorem stitching_no_clips_does_not_fail :
  forall m,
    state (self m) = AUDIO_SEGMENTS_BUILT ->
    audio_segments (self m) = [] ->
    fst (stitch_audio_segments m) = Return tt
    /\ (audio (self (snd (stitch_audio_segments m))) = PyInt 0
        \/ audio (self (snd (stitch_audio_segments m))) = audio (self m)).
Proof.
  intros m Hs Hclips.
  unfold stitch_audio_segments, podcast_stage. rewrite Hs. simpl.
  destruct (_reworking (self m)); simpl.
  - unfold stitch_audio_segments_body. rewrite Hclips. simpl.
    split; [reflexivity | left; reflexivity].
  - split; [reflexivity | right; reflexivity].
Qed.

(** The undecorated stage function itself, on no clips: [sum([])]. *)
Lemma stitch_body_no_clips :
  forall m,
    audio_segments (self m) = [] ->
    stitch_audio_segments_body m =
      (Return tt,
       mkMachine (set_audio (PyInt 0) (set_audio_segments [] (self m)))
                 (next_oid m) (trace m)).
Proof.
  intros m Hclips. unfold stitch_audio_segments_body. rewrite Hclips.
  reflexivity.
Qed.

(** ** Saving *)

(** C9.  [save_transcript] raises TypeError in every state and saves
    nothing: its guard compares two enum members with [<]. *)
Theorem save_transcript_always_raises_TypeError :
  forall file format m,
    exists e,
      save_transcript file format m = (Raise e, m)
      /\ exc_type e = TypeError.
Proof.
  intros file format m. unfold save_transcript, enum_lt.
  eexists; split; reflexivity.
Qed.

(** [save] does keep to its guard: it raises ValueError in every state but
    [STITCHED], and in [STITCHED] it exports the stitched audio. *)
Lemma save_guard :
  forall file m,
    (state (self m) <> STITCHED ->
     exists e, save file m = (Raise e, m) /\ exc_type e = ValueError)
    /\ (state (self m) = STITCHED ->
        forall a, audio (self m) = PyAudio a -> pydub_len a <> 0 ->
        save file m =
          (Return tt, mkMachine (self m) (next_oid m)
                                (trace m ++ [Exported file a]))).
Proof.
  intros file m. unfold save. split.
  - intro Hs.
    replace (PodcastState_eqb (state (self m)) STITCHED) with false
      by (destruct (state (self m)); try reflexivity; contradiction).
    simpl. eexists; split; reflexivity.
  - intros Hs a Ha Hlen. rewrite Hs, Ha. simpl.
    apply Z.eqb_neq in Hlen. rewrite Hlen. reflexivity.
Qed.

(** ** Construction *)

(** C10.  With a backend whose [text_to_speech] is not a coroutine function
    and more than one default job the constructor raises (a TypeError, as
    it raises the [None] that [logging.warning] returned) and no podcast
    comes to exist; with one default job, or with an asynchronous backend,
    it returns a podcast in state [INITIALIZED]. *)
Theorem constructor_raises_for_blocking_backend_with_jobs :
  forall content0 llm tts n_jobs,
    (is_async tts = false -> 1 < n_jobs ->
     exists e, fst (Podcast__init__ content0 llm tts n_jobs) = Raise e
               /\ exc_type e = TypeError)
    /\ (n_jobs = 1 \/ is_async tts = true ->
        exists p, fst (Podcast__init__ content0 llm tts n_jobs) = Return p
                  /\ state p = INITIALIZED
                  /\ _reworking p = false
                  /\ transcript p = None
                  /\ audio_segments p = []
                  /\ audio p = PyNone).
Proof.
  intros content0 llm tts n_jobs. unfold Podcast__init__. split.
  - intros Hsync Hn. apply Z.ltb_lt in Hn. rewrite Hn, Hsync. simpl.
    eexists; split; reflexivity.
  - intros [-> | Hasync].
    + simpl. eexists; repeat split; reflexivity.
    + rewrite Hasync, andb_false_r. simpl.
      eexists; repeat split; reflexivity.
Qed.

(** ** Synthesis: the order of the clips *)

(** *** The stable sort on distinct keys *)

Lemma insert_by_key_comm :
  forall (A : Type) (x y : nat * A) (l : list (nat * A)),
    fst x <> fst y ->
    insert_by_key x (insert_by_key y l) = insert_by_key y (insert_by_key x l).
Proof.
  intros A x y l Hxy. induction l as [|z l IH]; simpl.
  - destruct (Nat.leb_spec (fst x) (fst y)), (Nat.leb_spec (fst y) (fst x));
      try reflexivity; lia.
  - destruct (Nat.leb_spec (fst y) (fst z)), (Nat.leb_spec (fst x) (fst z));
      simpl;
      repeat match goal with
             | |- context [(?a <=? ?b)%nat] => destruct (Nat.leb_spec a b)
             end;
      try reflexivity; try lia.
    rewrite IH. reflexivity.
Qed.

Lemma list_sort_permutation_invariant :
  forall (A : Type) (l l' : list (nat * A)),
    Permutation l l' ->
    NoDup (map fst l) ->
    list_sort l = list_sort l'.
Proof.
  intros A l l' HP. induction HP as [|x l l' HP IH|x y l|l l' l'' HP1 IH1 HP2 IH2];
    intro Hnd; simpl.
  - reflexivity.
  - inversion Hnd; subst. rewrite IH by assumption. reflexivity.
  - apply insert_by_key_comm.
    inversion Hnd as [|? ? Hin _]; subst. simpl in Hin. intro E. apply Hin.
    left. symmetry. exact E.
  - rewrite IH1 by assumption. apply IH2.
    eapply Permutation_NoDup; [|exact Hnd].
    apply Permutation_map. exact HP1.
Qed.

Lemma list_sort_ascending :
  forall (clips : list AudioSegment) (a : nat),
    list_sort (combine (seq a (length clips)) clips)
    = combine (seq a (length clips)) clips.
Proof.
  induction clips as [|c clips IH]; intro a.
  - reflexivity.
  - change (insert_by_key (a, c)
              (list_sort (combine (seq (S a) (length clips)) clips))
            = (a, c) :: combine (seq (S a) (length clips)) clips).
    rewrite IH.
    destruct clips as [|c' clips]; simpl.
    + reflexivity.
    + destruct (Nat.leb_spec a (S a)); [reflexivity | lia].
Qed.

Lemma map_fst_numbered :
  forall (clips : list AudioSegment) (a : nat),
    map fst (combine (seq a (length clips)) clips) = seq a (length clips).
Proof.
  induction clips as [|c clips IH]; intro a; simpl.
  - reflexivity.
  - rewrite IH. reflexivity.
Qed.

Lemma map_snd_numbered :
  forall (clips : list AudioSegment) (a : nat),
    map snd (combine (seq a (length clips)) clips) = clips.
Proof.
  induction clips as [|c clips IH]; intro a; simpl.
  - reflexivity.
  - rewrite IH. reflexivity.
Qed.

(** *** What the two dispatch strategies hand to the sort *)

Lemma keyed_in_submission_order_from :
  forall (clips prefix : list AudioSegment),
    flat_map (fun i => match nth_error (prefix ++ clips) i with
                       | Some c => [(i, c)]
                       | None => []
                       end)
             (seq (length prefix) (length clips))
    = combine (seq (length prefix) (length clips)) clips.
Proof.
  induction clips as [|c clips IH]; intro prefix; simpl.
  - reflexivity.
  - rewrite nth_error_app2 by lia. rewrite Nat.sub_diag. simpl.
    f_equal.
    specialize (IH (prefix ++ [c])).
    rewrite <- app_assoc in IH. simpl in IH.
    rewrite length_app in IH. simpl in IH.
    rewrite Nat.add_1_r in IH. exact IH.
Qed.

Lemma keyed_in_submission_order :
  forall clips,
    keyed_in clips (seq 0 (length clips)) = combine (seq 0 (length clips)) clips.
Proof.
  intro clips. exact (keyed_in_submission_order_from clips []).
Qed.

Lemma collect_completed_all_returned :
  forall clips order acc,
    collect_completed (map Return clips) order acc
    = (Return tt, acc ++ map snd (keyed_in clips order)).
Proof.
  intros clips order. induction order as [|i order IH]; intro acc; simpl.
  - rewrite app_nil_r. reflexivity.
  - rewrite nth_error_map.
    destruct (nth_error clips i) as [c|]; simpl.
    + rewrite IH, <- app_assoc. reflexivity.
    + apply IH.
Qed.

Lemma first_failure_all_returned :
  forall clips order, first_failure (map Return clips) order = None.
Proof.
  intros clips order. induction order as [|i order IH]; simpl.
  - reflexivity.
  - rewrite nth_error_map. destruct (nth_error clips i); simpl; exact IH.
Qed.

Lemma all_results_all_returned :
  forall clips, all_results (map Return clips) = Some clips.
Proof.
  induction clips as [|c clips IH]; simpl.
  - reflexivity.
  - rewrite IH. reflexivity.
Qed.

Lemma gather_all_returned :
  forall clips order, gather (map Return clips) order = Return clips.
Proof.
  intros clips order. unfold gather.
  rewrite first_failure_all_returned, all_results_all_returned. reflexivity.
Qed.

(** *** The sort key *)

Lemma index_of_nth :
  forall segs i s,
    NoDup (map oid segs) ->
    nth_error segs i = Some s ->
    index segs (Some s) = Some i.
Proof.
  induction segs as [|h segs IH]; intros i s Hnd Hnth.
  - destruct i; discriminate Hnth.
  - inversion Hnd as [|? ? Hnotin Hnd']; subst.
    destruct i as [|i]; simpl in *.
    + inversion Hnth; subst. unfold same_object. rewrite Nat.eqb_refl.
      reflexivity.
    + unfold same_object.
      destruct (Nat.eqb_spec (oid h) (oid s)) as [E|_].
      * exfalso. apply Hnotin. rewrite E. apply in_map.
        eapply nth_error_In. exact Hnth.
      * rewrite (IH i s Hnd' Hnth). reflexivity.
Qed.

Lemma synthesis_call_source :
  forall p s c, synthesis_call p s = Return c -> transcript_segment c = Some s.
Proof.
  intros p s c. unfold synthesis_call, _async_text_to_speech,
    _sync_text_to_speech, decode_clip.
  destruct (tts_has_async p), (text_to_speech (tts_backend p)) as [f|f];
    try discriminate;
    destruct (f (text s) (speaker s)) as [audio_file|e|]; try discriminate;
    try (destruct (from_file audio_file); try discriminate;
         intro H; inversion H; reflexivity).
Qed.

Lemma sort_keys_keyed_in :
  forall segs clips order,
    (forall i c, nth_error clips i = Some c ->
                 index segs (transcript_segment c) = Some i) ->
    sort_keys segs (map snd (keyed_in clips order)) = Some (keyed_in clips order).
Proof.
  intros segs clips order Hkey. induction order as [|i order IH].
  - reflexivity.
  - change (keyed_in clips (i :: order))
      with (match nth_error clips i with
            | Some c => [(i, c)]
            | None => []
            end ++ keyed_in clips order).
    destruct (nth_error clips i) as [c|] eqn:Hc; simpl.
    + rewrite (Hkey i c Hc), IH. reflexivity.
    + exact IH.
Qed.

Lemma Forall2_nth_error_r :
  forall (A B : Type) (R : A -> B -> Prop) (l : list A) (l' : list B) i y,
    Forall2 R l l' ->
    nth_error l' i = Some y ->
    exists x, nth_error l i = Some x /\ R x y.
Proof.
  intros A B R l l' i y H. revert i.
  induction H as [|x0 y0 l l' HR H IH]; intros i Hnth.
  - destruct i; discriminate Hnth.
  - destruct i as [|i]; simpl in *.
    + inversion Hnth; subst. eauto.
    + apply IH. exact Hnth.
Qed.

Lemma Forall2_map_Return :
  forall (A B : Type) (f : A -> Result B) (l : list A) (l' : list B),
    Forall2 (fun x y => f x = Return y) l l' ->
    map f l = map Return l'.
Proof.
  intros A B f l l' H. induction H as [|x y l l' HR H IH]; simpl.
  - reflexivity.
  - rewrite HR, IH. reflexivity.
Qed.

(** The sort puts any arrival order of the clips of distinct segments back
    into the order of the transcript. *)
Lemma sort_restores_transcript_order :
  forall m t clips order,
    transcript (self m) = Some t ->
    NoDup (map oid (segments t)) ->
    Forall2 (fun s c => transcript_segment c = Some s) (segments t) clips ->
    Permutation order (seq 0 (length clips)) ->
    audio_segments (self m) = map snd (keyed_in clips order) ->
    sort_audio_segments m =
      (Return tt,
       mkMachine (set_audio_segments clips (self m)) (next_oid m) (trace m)).
Proof.
  intros m t clips order Ht Hnd Hsrc Hperm Hclips.
  unfold sort_audio_segments. rewrite Ht, Hclips.
  rewrite sort_keys_keyed_in.
  - rewrite (list_sort_permutation_invariant _ (keyed_in clips order)
               (keyed_in clips (seq 0 (length clips)))).
    + rewrite keyed_in_submission_order, list_sort_ascending, map_snd_numbered.
      reflexivity.
    + unfold keyed_in. apply Permutation_flat_map. exact Hperm.
    + eapply Permutation_NoDup.
      * apply Permutation_map. unfold keyed_in.
        apply Permutation_flat_map. symmetry. exact Hperm.
      * fold (keyed_in clips (seq 0 (length clips))).
        rewrite keyed_in_submission_order, map_fst_numbered.
        apply seq_NoDup.
  - intros i c Hc.
    destruct (Forall2_nth_error_r _ _ _ _ _ _ _ Hsrc Hc) as (s & Hs & Hcs).
    rewrite Hcs. apply index_of_nth; assumption.
Qed.

Lemma store_then_sort :
  forall m t clips order,
    transcript (self m) = Some t ->
    NoDup (map oid (segments t)) ->
    Forall2 (fun s c => transcript_segment c = Some s) (segments t) clips ->
    Permutation order (seq 0 (length clips)) ->
    (update (set_audio_segments (map snd (keyed_in clips order)))
     ;;; sort_audio_segments) m =
      (Return tt,
       mkMachine (set_audio_segments clips (self m)) (next_oid m) (trace m)).
Proof.
  intros m t clips order Ht Hnd Hsrc Hperm. unfold bind, update.
  rewrite (sort_restores_transcript_order _ t clips order);
    try assumption; reflexivity.
Qed.

Lemma clips_remember_their_segments :
  forall p segs clips,
    Forall2 (fun s c => synthesis_call p s = Return c) segs clips ->
    Forall2 (fun s c => transcript_segment c = Some s) segs clips.
Proof.
  intros p segs clips H. eapply Forall2_impl; [|exact H].
  intros s c Hc. eapply synthesis_call_source. exact Hc.
Qed.

(** Either dispatch strategy, when every call succeeds, ends with the
    clips stored in the order of the segments. *)
Lemma body_stores_clips_in_order :
  forall n_jobs m t clips,
    transcript (self m) = Some t ->
    NoDup (map oid (segments t)) ->
    1 <= effective_n_jobs n_jobs (self m) ->
    Permutation (completion_order (length (segments t)))
                (seq 0 (length (segments t))) ->
    Forall2 (fun s c => synthesis_call (self m) s = Return c)
            (segments t) clips ->
    build_audio_segments_body n_jobs m =
      (Return tt,
       mkMachine (set_audio_segments clips (self m)) (next_oid m) (trace m)).
Proof.
  intros n_jobs m t clips Ht Hnd Hjobs Hperm Hcalls.
  assert (Hlen : length clips = length (segments t))
    by (symmetry; eapply Forall2_length; exact Hcalls).
  pose proof (clips_remember_their_segments _ _ _ Hcalls) as Hsrc.
  unfold build_audio_segments_body.
  unfold synthesis_call in Hcalls.
  destruct (tts_has_async (self m)).
  - replace (effective_n_jobs n_jobs (self m) <? 0) with false
      by (symmetry; apply Z.ltb_ge; lia).
    rewrite Ht.
    rewrite (Forall2_map_Return _ _ _ _ _ Hcalls).
    destruct clips as [|c clips].
    + exact (store_then_sort m t [] [] Ht Hnd Hsrc (Permutation_refl _)).
    + cbv beta iota zeta.
      change (map Return (c :: clips))
        with (Return c :: map Return clips) at 1.
      cbv beta iota.
      replace (effective_n_jobs n_jobs (self m) =? 0) with false
        by (symmetry; apply Z.eqb_neq; lia).
      rewrite gather_all_returned.
      rewrite <- (map_snd_numbered (c :: clips) 0) at 1.
      rewrite <- keyed_in_submission_order.
      apply (store_then_sort m t); try assumption.
      apply Permutation_refl.
  - replace (effective_n_jobs n_jobs (self m) <=? 0) with false
      by (symmetry; apply Z.leb_gt; lia).
    rewrite Ht. cbv zeta.
    rewrite length_map.
    rewrite (Forall2_map_Return _ _ _ _ _ Hcalls).
    rewrite collect_completed_all_returned. simpl app.
    apply (store_then_sort m t); try assumption.
    rewrite Hlen. exact Hperm.
Qed.

(** C3 (as amended).  For a transcript of N segments that are pairwise
    distinct objects, every number of jobs of at least 1 and every order
    in which the N synthesis calls complete, the stage function
    [build_audio_segments], when all its calls succeed, returns with
    exactly N clips stored, the i-th of them the clip synthesized from the
    i-th segment of the transcript: the stored list does not depend on the
    completion order. *)
Theorem clips_follow_transcript_order :
  forall n_jobs m t clips,
    transcript (self m) = Some t ->
    NoDup (map oid (segments t)) ->
    1 <= effective_n_jobs n_jobs (self m) ->
    Permutation (completion_order (length (segments t)))
                (seq 0 (length (segments t))) ->
    Forall2 (fun s c => synthesis_call (self m) s = Return c)
            (segments t) clips ->
    build_audio_segments_body n_jobs m =
      (Return tt,
       mkMachine (set_audio_segments clips (self m)) (next_oid m) (trace m))
    /\ length clips = length (segments t)
    /\ map transcript_segment clips = map Some (segments t).
Proof.
  intros n_jobs m t clips Ht Hnd Hjobs Hperm Hcalls.
  split; [|split].
  - apply (body_stores_clips_in_order n_jobs m t clips); assumption.
  - symmetry. eapply Forall2_length. exact Hcalls.
  - pose proof (clips_remember_their_segments _ _ _ Hcalls) as Hsrc.
    clear - Hsrc. induction Hsrc as [|s c segs clips Hc _ IH]; simpl.
    + reflexivity.
    + rewrite Hc, IH. reflexivity.
Qed.

(** Inside a rework scope the decorated method runs that body, so the same
    holds of a call of [podcast.build_audio_segments(n_jobs)]; the state
    is left where it was. *)
Lemma build_audio_segments_in_rework :
  forall n_jobs m t clips,
    _reworking (self m) = true ->
    state (self m) <> STITCHED ->
    transcript (self m) = Some t ->
    NoDup (map oid (segments t)) ->
    1 <= effective_n_jobs n_jobs (self m) ->
    Permutation (completion_order (length (segments t)))
                (seq 0 (length (segments t))) ->
    Forall2 (fun s c => synthesis_call (self m) s = Return c)
            (segments t) clips ->
    build_audio_segments n_jobs m =
      (Return tt,
       mkMachine (set_audio_segments clips (self m)) (next_oid m) (trace m)).
Proof.
  intros n_jobs m t clips Hr Hs Ht Hnd Hjobs Hperm Hcalls.
  apply podcast_stage_reworking; try assumption.
  apply (body_stores_clips_in_order n_jobs m t clips); assumption.
Qed.

(** ** Synthesis: a failing call *)

Lemma first_failure_is_a_failure :
  forall tasks order clips, first_failure tasks order <> Some (Return clips).
Proof.
  intros tasks order clips. induction order as [|i order IH]; simpl.
  - discriminate.
  - destruct (nth_error tasks i) as [[c|e|]|]; try exact IH; discriminate.
Qed.

Lemma all_results_each_returned :
  forall (f : TranscriptSegment -> Result AudioSegment) segs clips s,
    all_results (map f segs) = Some clips ->
    In s segs ->
    exists c, f s = Return c.
Proof.
  intros f segs. induction segs as [|h segs IH]; intros clips s Hall Hin.
  - destruct Hin.
  - simpl in Hall. destruct (f h) as [c|e|] eqn:Hh; try discriminate Hall.
    destruct (all_results (map f segs)) as [rest|] eqn:Hrest;
      try discriminate Hall.
    destruct Hin as [<- | Hin].
    + eauto.
    + eapply IH; [reflexivity | exact Hin].
Qed.

(** On the asyncio path a failing call leaves the podcast exactly as it
    was: [self.audio_segments] is assigned only once [gather] has all the
    results. *)
Lemma asyncio_path_failure_stores_nothing :
  forall n_jobs m t s,
    tts_has_async (self m) = true ->
    transcript (self m) = Some t ->
    In s (segments t) ->
    (forall c, _async_text_to_speech (tts_backend (self m)) s <> Return c) ->
    snd (build_audio_segments_body n_jobs m) = m
    /\ fst (build_audio_segments_body n_jobs m) <> Return tt.
Proof.
  intros n_jobs m t s Hasync Ht Hin Hfail.
  unfold build_audio_segments_body. rewrite Hasync.
  destruct (_ <? 0); [split; [reflexivity | discriminate]|].
  rewrite Ht. cbv zeta.
  destruct (map _ (segments t)) as [|task tasks] eqn:Htasks.
  - destruct (segments t); [destruct Hin | discriminate Htasks].
  - destruct (_ =? 0); [split; [reflexivity | discriminate]|].
    rewrite <- Htasks.
    destruct (gather _ _) as [clips|e|] eqn:Hg;
      try (split; [reflexivity | discriminate]).
    exfalso. unfold gather in Hg.
    destruct (first_failure _ _) as [r|] eqn:Hff.
    + subst r. exact (first_failure_is_a_failure _ _ _ Hff).
    + destruct (all_results _) as [clips'|] eqn:Hall; try discriminate Hg.
      destruct (all_results_each_returned _ _ _ s Hall Hin) as [c Hc].
      exact (Hfail c Hc).
Qed.

(** ** The transcript stage *)

Lemma make_segments_one_to_one :
  forall generated id,
    length (make_segments id generated) = length generated
    /\ map (fun s => (speaker s, text s)) (make_segments id generated) = generated
    /\ Forall (fun s => tts_args s = []) (make_segments id generated)
    /\ map oid (make_segments id generated) = seq id (length generated).
Proof.
  induction generated as [|[spk txt] generated IH]; intro id; simpl.
  - repeat split; constructor.
  - destruct (IH (S id)) as (Hlen & Hmap & Hargs & Hoid).
    rewrite Hlen, Hmap, Hoid. repeat split. constructor; [reflexivity | exact Hargs].
Qed.

(** The undecorated [build_transcript] maps the generated pairs one to one,
    in order, to fresh segments without synthesis options. *)
Lemma build_transcript_body_maps_pairs :
  forall m generated,
    generate_text (llm_backend (self m)) (content (self m)) = Return generated ->
    exists segs,
      build_transcript_body m =
        (Return tt,
         mkMachine
           (set_transcript
              (Some (mkTranscript segs [("source", "Generated content")]))
              (self m))
           (next_oid m + length generated)%nat (trace m))
      /\ length segs = length generated
      /\ map (fun s => (speaker s, text s)) segs = generated
      /\ Forall (fun s => tts_args s = []) segs
      /\ NoDup (map oid segs).
Proof.
  intros m generated Hgen.
  destruct (make_segments_one_to_one generated (next_oid m))
    as (Hlen & Hmap & Hargs & Hoid).
  exists (make_segments (next_oid m) generated).
  unfold build_transcript_body. rewrite Hgen. cbv zeta. rewrite Hlen.
  repeat split; try assumption.
  rewrite Hoid. apply seq_NoDup.
Qed.

(** C2.  [build_transcript] on a podcast in state [INITIALIZED] whose
    backend returns a list of pairs returns normally and leaves the state
    [INITIALIZED]; outside a rework scope it leaves the whole podcast as it
    was (no transcript is set), inside one it sets the transcript built
    from the pairs. *)
Theorem build_transcript_stays_INITIALIZED :
  forall m generated,
    state (self m) = INITIALIZED ->
    generate_text (llm_backend (self m)) (content (self m)) = Return generated ->
    fst (build_transcript m) = Return tt
    /\ state (self (snd (build_transcript m))) = INITIALIZED
    /\ (_reworking (self m) = false -> self (snd (build_transcript m)) = self m)
    /\ (_reworking (self m) = true ->
        transcript (self (snd (build_transcript m))) =
          Some (mkTranscript (make_segments (next_oid m) generated)
                             [("source", "Generated content")])).
Proof.
  intros m generated Hs Hgen.
  unfold build_transcript, podcast_stage. rewrite Hs. simpl.
  destruct (_reworking (self m)); simpl.
  - unfold build_transcript_body. rewrite Hgen. simpl.
    repeat split; try assumption; try reflexivity. discriminate.
  - repeat split; try assumption; try reflexivity. discriminate.
Qed.

(** ** finalize, outside a rework scope *)

(** C1.  Called outside a rework scope on a podcast in any state but
    [STITCHED], [finalize] has not returned after any number of
    iterations, and the podcast is then what it was at the call: every
    stage call of the loop is skipped. *)
Theorem finalize_does_not_terminate :
  forall fuel m,
    _reworking (self m) = false ->
    state (self m) <> STITCHED ->
    fst (finalize fuel m) = Unfinished
    /\ self (snd (finalize fuel m)) = self m.
Proof.
  intros fuel m Hr Hs.
  destruct (getitem _next_stage_methods (state (self m))) as [c|] eqn:Hc.
  - destruct (getitem_method _ _ Hc) as [f ->].
    rewrite (finalize_skips_for_ever fuel m f Hr Hc). split; reflexivity.
  - apply getitem_STITCHED in Hc. contradiction.
Qed.

(** * Further properties of the controller *)

(** ** Rewinding *)

(** X1.  Rewinding in two steps is rewinding once to the earlier state:
    [reset_to_state(s1)] followed by [reset_to_state(s2)], with [s2] not
    later than [s1], leaves the podcast as [reset_to_state(s2)] alone
    does.  In particular [reset_to_state] is idempotent. *)
Theorem reset_to_state_twice :
  forall s1 s2 m,
    value s2 <= value s1 ->
    (reset_to_state s1 ;;; reset_to_state s2) m = reset_to_state s2 m.
Proof.
  intros s1 s2 m Hle. unfold bind, reset_to_state, update.
  destruct s1, s2; simpl in Hle; try lia; reflexivity.
Qed.

(** X2.  [reset_to_state(s)] returns normally on every podcast, with the
    state [s], no data of a later stage, the data of the stages up to [s]
    as it was, and the rework flag as it was. *)
Theorem reset_to_state_leaves_no_later_data :
  forall s m,
    fst (reset_to_state s m) = Return tt
    /\ state (self (snd (reset_to_state s m))) = s
    /\ no_later_data (self (snd (reset_to_state s m)))
    /\ (value TRANSCRIPT_BUILT <= value s ->
        transcript (self (snd (reset_to_state s m))) = transcript (self m))
    /\ (value AUDIO_SEGMENTS_BUILT <= value s ->
        audio_segments (self (snd (reset_to_state s m)))
        = audio_segments (self m))
    /\ (value STITCHED <= value s ->
        audio (self (snd (reset_to_state s m))) = audio (self m))
    /\ _reworking (self (snd (reset_to_state s m))) = _reworking (self m).
Proof.
  intros s m. unfold reset_to_state, update, no_later_data.
  destruct s; simpl; repeat split; intros; try reflexivity; lia.
Qed.

(** X3.  [reset_to_state] can be used to move forward, and then builds
    nothing: on a podcast without stitched audio, [reset_to_state(STITCHED)]
    followed by [save] raises ValueError (No stitched audio to save) and
    writes no file. *)
Theorem reset_forward_then_save_raises :
  forall file m,
    truthy (audio (self m)) = false ->
    exists m',
      (reset_to_state STITCHED ;;; save file) m =
        (Raise (mkExc ValueError "No stitched audio to save"), m')
      /\ state (self m') = STITCHED
      /\ audio (self m') = audio (self m)
      /\ trace m' = trace m.
Proof.
  intros file m Haudio. unfold bind, reset_to_state, update, save. simpl.
  rewrite Haudio. eexists. repeat split.
Qed.

(** X4.  Entering a rework scope never moves the state forward: the block
    starts with the flag set and in the earlier of the target state and
    the current state; when the target is not earlier than the current
    state, nothing but the flag changes and nothing is printed. *)
Theorem rework_enter_never_moves_forward :
  forall target_state m,
    fst (rework_enter target_state m) = Return tt
    /\ _reworking (self (snd (rework_enter target_state m))) = true
    /\ value (state (self (snd (rework_enter target_state m))))
       = Z.min (value target_state) (value (state (self m)))
    /\ (value (state (self m)) <= value target_state ->
        snd (rework_enter target_state m)
        = mkMachine (set_reworking true (self m)) (next_oid m) (trace m)).
Proof.
  intros target_state m. unfold rework_enter, bind, update, print, emit.
  cbv beta iota. simpl.
  destruct (Z.ltb_spec (value target_state) (value (state (self m))))
    as [Hlt|Hge]; simpl; repeat split; try intro Hle; try reflexivity; lia.
Qed.

Lemma rework_clears_the_flag :
  forall fuel target_state auto_finalize block m,
    fst (rework fuel target_state auto_finalize block m) <> Unfinished ->
    _reworking (self (snd (rework fuel target_state auto_finalize block m)))
    = false.
Proof.
  intros fuel target_state auto_finalize block m Hout.
  destruct (block (snd (rework_enter target_state m))) as [r m2] eqn:Hblock.
  assert (Hr : r <> Unfinished).
  { intro E. subst r. apply Hout. unfold rework.
    pose proof (rework_enter_returns target_state m) as He.
    destruct (rework_enter target_state m) as [re m1]; simpl in *.
    subst re. rewrite Hblock. reflexivity. }
  rewrite (rework_block_ended _ _ _ _ _ _ _ Hblock Hr), rework_exit_cases.
  destruct (_ <? _); [destruct auto_finalize|]; try reflexivity.
  pose proof (finalize_same_stage fuel (warned (state (self m)) m2))
    as [_ Hflag].
  unfold leave_finally.
  destruct (finalize fuel _) as [[u|e|] m3]; simpl in *; exact Hflag.
Qed.

(** X5.  Rework scopes do not nest: once a scope has ended, the flag is
    off, also inside an enclosing scope, so that a stage call made right
    after it (in any state but [STITCHED]) is skipped. *)
Theorem stage_call_after_a_scope_is_skipped :
  forall fuel target_state auto_finalize block func n_jobs m r m',
    rework fuel target_state auto_finalize block m = (r, m') ->
    r <> Unfinished ->
    state (self m') <> STITCHED ->
    podcast_stage func n_jobs m' =
      (Return tt,
       mkMachine (self m') (next_oid m')
                 (trace m' ++ [Printed (skip_line func (state (self m')))])).
Proof.
  intros fuel target_state auto_finalize block func n_jobs m r m' Hrw Hr Hs.
  pose proof (rework_clears_the_flag fuel target_state auto_finalize block m)
    as Hflag.
  rewrite Hrw in Hflag. simpl in Hflag.
  rewrite (podcast_stage_skips func n_jobs m' (Hflag Hr) Hs). reflexivity.
Qed.

(** ** The stage functions and the state *)

(** X6.  No call of a decorated stage function changes the state or the
    rework flag, whether the call is skipped, runs, or fails. *)
Theorem stage_call_never_moves_the_state :
  forall func n_jobs m,
    state (self (snd (podcast_stage func n_jobs m))) = state (self m)
    /\ _reworking (self (snd (podcast_stage func n_jobs m)))
       = _reworking (self m).
Proof.
  intros func n_jobs m. exact (podcast_stage_same_stage func n_jobs m).
Qed.

(** X7.  [finalize] returns normally exactly when the podcast is in state
    [STITCHED] at the call, and it has then done nothing. *)
Theorem finalize_returns_iff_STITCHED :
  forall fuel m,
    (fst (finalize (S fuel) m) = Return tt <-> state (self m) = STITCHED)
    /\ (fst (finalize (S fuel) m) = Return tt -> snd (finalize (S fuel) m) = m).
Proof.
  intros fuel m.
  assert (Hiff : fst (finalize (S fuel) m) = Return tt
                 <-> state (self m) = STITCHED).
  { split.
    - intro Hret. destruct (state (self m)) eqn:Hs; try reflexivity;
        exfalso;
        apply (proj1 (finalize_never_returns (S fuel) m
                        ltac:(rewrite Hs; discriminate)));
        exact Hret.
    - intro Hs. rewrite (finalize_STITCHED fuel m Hs). reflexivity. }
  split; [exact Hiff|].
  intro Hret. apply Hiff in Hret. rewrite (finalize_STITCHED fuel m Hret).
  reflexivity.
Qed.

(** ** The audio property of a clip *)

(** X8.  The length check of [AudioSegment.audio] is made on the first
    access only: when the file decodes to another length than the clip
    claims, the first access raises ValueError, but it has cached the
    audio by then, and the next access returns it. *)
Theorem length_check_only_on_first_access :
  forall x a,
    _audio x = None ->
    from_file (filepath x) = Return a ->
    pydub_len a <> length_ms x ->
    exists e,
      AudioSegment_audio x = (Raise e, with_audio x a)
      /\ exc_type e = ValueError
      /\ AudioSegment_audio (with_audio x a) = (Return a, with_audio x a).
Proof.
  intros x a Hcache Hfile Hlen. unfold AudioSegment_audio at 1.
  rewrite Hcache, Hfile. apply Z.eqb_neq in Hlen. rewrite Hlen.
  eexists. repeat split.
Qed.

(** X9.  A clip made by a synthesis call passes the length check of its
    own [audio] property, as long as its file still decodes as it did. *)
Theorem synthesized_clip_passes_length_check :
  forall p s c,
    synthesis_call p s = Return c ->
    exists a,
      AudioSegment_audio c = (Return a, with_audio c a)
      /\ pydub_len a = length_ms c
      /\ transcript_segment c = Some s.
Proof.
  intros p s c. unfold synthesis_call, _async_text_to_speech,
    _sync_text_to_speech, decode_clip.
  destruct (tts_has_async p), (text_to_speech (tts_backend p)) as [f|f];
    try discriminate;
    destruct (f (text s) (speaker s)) as [audio_file|e|]; try discriminate;
    destruct (from_file audio_file) as [a|e|] eqn:Hfile; try discriminate;
    intro H; inversion H; subst c; exists a;
    unfold AudioSegment_audio; simpl; rewrite Hfile, Z.eqb_refl;
    repeat split.
Qed.

(** ** Stitching *)

Lemma load_all_labelled :
  forall clips,
    Forall loads_as_labelled clips ->
    load_all clips =
      (Return (map decoded clips), map (fun x => with_audio x (decoded x)) clips).
Proof.
  intros clips H. induction H as [|x clips [Hcache (a & Hfile & Hlen)] _ IH];
    simpl.
  - reflexivity.
  - unfold AudioSegment_audio, decoded at 1 3. rewrite Hcache, Hfile.
    apply Z.eqb_eq in Hlen. rewrite Hlen, IH. reflexivity.
Qed.

Lemma fold_py_add :
  forall l b,
    fold_left py_add l (PyAudio b)
    = PyAudio (mkPydub (samples b ++ concat (map samples l))).
Proof.
  induction l as [|a l IH]; intro b; simpl.
  - rewrite app_nil_r. destruct b; reflexivity.
  - rewrite IH. simpl. rewrite <- app_assoc. reflexivity.
Qed.

Lemma py_sum_concat :
  forall a l,
    py_sum (a :: l) = PyAudio (mkPydub (concat (map samples (a :: l)))).
Proof.
  intros a l. unfold py_sum. simpl. apply fold_py_add.
Qed.

Lemma labelled_total_length :
  forall clips,
    Forall loads_as_labelled clips ->
    Z.of_nat (length (concat (map samples (map decoded clips))))
    = total_length_ms clips.
Proof.
  intros clips H. induction H as [|x clips [_ (a & Hfile & Hlen)] _ IH];
    simpl.
  - reflexivity.
  - rewrite length_app, Nat2Z.inj_add, IH. unfold decoded. rewrite Hfile.
    unfold pydub_len in Hlen. rewrite Hlen. reflexivity.
Qed.

(** X10.  On a non-empty list of clips, none loaded yet, whose files
    decode to the lengths the clips claim, the stitch stage function
    returns with [audio] holding the clips' audio concatenated in the order
    of the list; its length is the sum of the clips' [length_ms], and every
    clip has its audio cached. *)
Theorem stitch_concatenates_clips_in_order :
  forall m,
    audio_segments (self m) <> [] ->
    Forall loads_as_labelled (audio_segments (self m)) ->
    exists a,
      stitch_audio_segments_body m =
        (Return tt,
         mkMachine
           (set_audio (PyAudio a)
              (set_audio_segments
                 (map (fun x => with_audio x (decoded x))
                      (audio_segments (self m)))
                 (self m)))
           (next_oid m) (trace m))
      /\ samples a
         = concat (map (fun x => samples (decoded x)) (audio_segments (self m)))
      /\ pydub_len a = total_length_ms (audio_segments (self m)).
Proof.
  intros m Hne Hclips. unfold stitch_audio_segments_body.
  rewrite (load_all_labelled _ Hclips).
  destruct (audio_segments (self m)) as [|x clips] eqn:Hseg;
    [contradiction|].
  change (map decoded (x :: clips)) with (decoded x :: map decoded clips).
  rewrite py_sum_concat.
  eexists. split; [reflexivity|]. split.
  - simpl. rewrite map_map. reflexivity.
  - unfold pydub_len. cbn [samples].
    exact (labelled_total_length (x :: clips) Hclips).
Qed.

Lemma AudioSegment_audio_keeps_label :
  forall x, label (snd (AudioSegment_audio x)) = label x.
Proof.
  intro x. unfold AudioSegment_audio.
  destruct (_audio x); [reflexivity|].
  destruct (from_file (filepath x)); try reflexivity.
  destruct (_ =? _); reflexivity.
Qed.

Lemma load_all_keeps_labels :
  forall clips, map label (snd (load_all clips)) = map label clips.
Proof.
  induction clips as [|x clips IH]; simpl.
  - reflexivity.
  - pose proof (AudioSegment_audio_keeps_label x) as Hx.
    destruct (AudioSegment_audio x) as [[a|e|] x']; simpl in *.
    + destruct (load_all clips) as [[l|e|] clips']; simpl in *;
        rewrite Hx, IH; reflexivity.
    + rewrite Hx. reflexivity.
    + rewrite Hx. reflexivity.
Qed.

(** X11.  When the stitch stage function fails (a clip cannot be decoded,
    or has another length than it claims), [audio] is left as it was: there
    is no partial artifact.  The clips are the same clips in the same
    order, and only their caches may have been filled. *)
Theorem failed_stitch_keeps_audio :
  forall m e m',
    stitch_audio_segments_body m = (Raise e, m') ->
    audio (self m') = audio (self m)
    /\ map label (audio_segments (self m')) = map label (audio_segments (self m))
    /\ transcript (self m') = transcript (self m)
    /\ state (self m') = state (self m)
    /\ trace m' = trace m.
Proof.
  intros m e m'. unfold stitch_audio_segments_body.
  pose proof (load_all_keeps_labels (audio_segments (self m))) as Hl.
  destruct (load_all (audio_segments (self m))) as [[l|e'|] clips];
    unfold bind, update, raise; simpl; intro H; inversion H; subst;
    simpl in *.
  repeat split. exact Hl.
Qed.

(** ** Synthesis: which failure, and what is left behind *)

Lemma collect_completed_until_failure :
  forall results done i rest e acc,
    Forall (not_failed results) done ->
    nth_error results i = Some (Raise e) ->
    collect_completed results (done ++ i :: rest) acc
    = (Raise e, acc ++ arrived results done).
Proof.
  intros results done i rest e acc Hdone Hi. revert acc.
  induction Hdone as [|j done Hj _ IH]; intro acc; simpl.
  - rewrite Hi, app_nil_r. reflexivity.
  - unfold not_failed in Hj.
    destruct (nth_error results j) as [[c|e'|]|]; try contradiction.
    + rewrite IH. simpl. rewrite <- app_assoc. reflexivity.
    + apply IH.
Qed.

Lemma first_failure_until_failure :
  forall results done i rest e,
    Forall (not_failed results) done ->
    nth_error results i = Some (Raise e) ->
    first_failure results (done ++ i :: rest) = Some (Raise e).
Proof.
  intros results done i rest e Hdone Hi.
  induction Hdone as [|j done Hj _ IH]; simpl.
  - rewrite Hi. reflexivity.
  - unfold not_failed in Hj.
    destruct (nth_error results j) as [[c|e'|]|]; try contradiction;
      exact IH.
Qed.

(** X12.  On the thread-pool path, when the calls listed in [done] complete
    without failing and the next call to complete raises [e],
    [build_audio_segments] raises that same [e], and [audio_segments] is
    left holding exactly the clips of [done], in arrival order: the
    earlier list is gone and the partial one is not sorted. *)
Theorem thread_pool_failure_keeps_earlier_arrivals :
  forall n_jobs m t done i rest e,
    tts_has_async (self m) = false ->
    1 <= effective_n_jobs n_jobs (self m) ->
    transcript (self m) = Some t ->
    completion_order (length (segments t)) = done ++ i :: rest ->
    Forall (not_failed (map (_sync_text_to_speech (tts_backend (self m)))
                            (segments t))) done ->
    nth_error (map (_sync_text_to_speech (tts_backend (self m))) (segments t)) i
    = Some (Raise e) ->
    build_audio_segments_body n_jobs m =
      (Raise e,
       mkMachine
         (set_audio_segments
            (arrived (map (_sync_text_to_speech (tts_backend (self m)))
                          (segments t)) done)
            (self m))
         (next_oid m) (trace m)).
Proof.
  intros n_jobs m t done i rest e Hpath Hjobs Ht Horder Hdone Hi.
  unfold build_audio_segments_body. rewrite Hpath.
  replace (effective_n_jobs n_jobs (self m) <=? 0) with false
    by (symmetry; apply Z.leb_gt; lia).
  rewrite Ht. cbv zeta. rewrite length_map, Horder.
  rewrite (collect_completed_until_failure _ _ _ _ _ _ Hdone Hi).
  reflexivity.
Qed.

(** X13.  On the asyncio path, under the same circumstances,
    [build_audio_segments] raises the exception of the first call to fail
    and leaves the podcast exactly as it was. *)
Theorem asyncio_failure_raises_first_and_stores_nothing :
  forall n_jobs m t done i rest e,
    tts_has_async (self m) = true ->
    1 <= effective_n_jobs n_jobs (self m) ->
    transcript (self m) = Some t ->
    completion_order (length (segments t)) = done ++ i :: rest ->
    Forall (not_failed (map (_async_text_to_speech (tts_backend (self m)))
                            (segments t))) done ->
    nth_error (map (_async_text_to_speech (tts_backend (self m))) (segments t)) i
    = Some (Raise e) ->
    build_audio_segments_body n_jobs m = (Raise e, m).
Proof.
  intros n_jobs m t done i rest e Hpath Hjobs Ht Horder Hdone Hi.
  unfold build_audio_segments_body. rewrite Hpath.
  replace (effective_n_jobs n_jobs (self m) <? 0) with false
    by (symmetry; apply Z.ltb_ge; lia).
  rewrite Ht. cbv zeta.
  destruct (map (_async_text_to_speech (tts_backend (self m))) (segments t))
    as [|task tasks] eqn:Htasks.
  - destruct i; discriminate Hi.
  - replace (effective_n_jobs n_jobs (self m) =? 0) with false
      by (symmetry; apply Z.eqb_neq; lia).
    rewrite <- Htasks in *. rewrite length_map, Horder.
    unfold gather.
    rewrite (first_failure_until_failure _ _ _ _ _ Hdone Hi). reflexivity.
Qed.

(** X14.  The constructor chooses the asyncio path by the presence of
    [text_to_speech_sync] and [async_text_to_speech], but the path awaits
    [text_to_speech]: when that one is a plain [def], a run on a transcript
    with at least one segment never returns normally, and stores
    nothing. *)
Theorem asyncio_path_awaits_text_to_speech :
  forall n_jobs m t f,
    tts_has_async (self m) = true ->
    text_to_speech (tts_backend (self m)) = Def f ->
    transcript (self m) = Some t ->
    segments t <> [] ->
    snd (build_audio_segments_body n_jobs m) = m
    /\ fst (build_audio_segments_body n_jobs m) <> Return tt.
Proof.
  intros n_jobs m t f Hpath Hdef Ht Hne.
  destruct (segments t) as [|s segs] eqn:Hsegs; [contradiction|].
  apply (asyncio_path_failure_stores_nothing n_jobs m t s Hpath Ht).
  - rewrite Hsegs. left. reflexivity.
  - intro c. unfold _async_text_to_speech. rewrite Hdef.
    destruct (f (text s) (speaker s)); discriminate.
Qed.

(** X15.  A number of jobs below one: a negative number raises ValueError
    on either path, zero raises ValueError on the thread-pool path, and in
    both cases before anything is touched.  (An argument [n_jobs] of zero
    stands for the default, so zero can only come from the default.) *)
Theorem jobs_below_one_raise_ValueError :
  forall n_jobs m,
    effective_n_jobs n_jobs (self m) < 0
    \/ (tts_has_async (self m) = false /\ effective_n_jobs n_jobs (self m) = 0) ->
    exists e,
      build_audio_segments_body n_jobs m = (Raise e, m)
      /\ exc_type e = ValueError.
Proof.
  intros n_jobs m H. unfold build_audio_segments_body.
  destruct (tts_has_async (self m)).
  - destruct H as [Hneg | [Hpath _]]; [|discriminate Hpath].
    apply Z.ltb_lt in Hneg. rewrite Hneg. eexists; split; reflexivity.
  - replace (effective_n_jobs n_jobs (self m) <=? 0) with true
      by (symmetry; apply Z.leb_le; destruct H as [H | [_ H]]; lia).
    eexists; split; reflexivity.
Qed.

(** X16.  With zero default jobs on the asyncio path, a run on a transcript
    with at least one segment never returns: no coroutine ever gets the
    semaphore.  Nothing is stored, and the argument [n_jobs=0] does not
    help, as it stands for the default. *)
Theorem zero_jobs_on_asyncio_path_never_return :
  forall n_jobs m t,
    tts_has_async (self m) = true ->
    default_tts_n_jobs (self m) = 0 ->
    n_jobs = None \/ n_jobs = Some 0 ->
    transcript (self m) = Some t ->
    segments t <> [] ->
    build_audio_segments_body n_jobs m = (Unfinished, m).
Proof.
  intros n_jobs m t Hpath Hdefault Hn Ht Hne.
  unfold build_audio_segments_body. rewrite Hpath.
  assert (Hzero : effective_n_jobs n_jobs (self m) = 0).
  { unfold effective_n_jobs. destruct Hn as [-> | ->]; simpl; exact Hdefault. }
  rewrite Hzero, Ht. simpl.
  destruct (segments t) as [|s segs]; [contradiction|]. reflexivity.
Qed.

(** ** Synthesis: transcripts with repeated segments *)

Lemma insert_by_key_permutation :
  forall (A : Type) (x : nat * A) l, Permutation (insert_by_key x l) (x :: l).
Proof.
  intros A x l. induction l as [|y l IH]; simpl.
  - apply Permutation_refl.
  - destruct (fst x <=? fst y)%nat.
    + apply Permutation_refl.
    + etransitivity; [apply perm_skip; exact IH | apply perm_swap].
Qed.

Lemma list_sort_permutation :
  forall (A : Type) (l : list (nat * A)), Permutation (list_sort l) l.
Proof.
  intros A l. induction l as [|x l IH].
  - apply Permutation_refl.
  - change (list_sort (x :: l)) with (insert_by_key x (list_sort l)).
    etransitivity; [apply insert_by_key_permutation | apply perm_skip; exact IH].
Qed.

Lemma insert_by_key_sorted :
  forall (A : Type) (x : nat * A) l,
    Sorted le_key l -> Sorted le_key (insert_by_key x l).
Proof.
  intros A x l H. induction H as [|y l Hl IH Hhd]; simpl.
  - repeat constructor.
  - destruct (Nat.leb_spec (fst x) (fst y)) as [Hle|Hgt].
    + constructor; [constructor; assumption | constructor; exact Hle].
    + constructor; [exact IH|].
      destruct l as [|z l]; simpl.
      * constructor. unfold le_key. lia.
      * destruct (fst x <=? fst z)%nat; constructor.
        -- unfold le_key. lia.
        -- inversion Hhd; assumption.
Qed.

Lemma list_sort_sorted :
  forall (A : Type) (l : list (nat * A)), Sorted le_key (list_sort l).
Proof.
  intros A l. induction l as [|x l IH].
  - constructor.
  - change (list_sort (x :: l)) with (insert_by_key x (list_sort l)).
    apply insert_by_key_sorted. exact IH.
Qed.

Lemma sorted_by_key_of_value :
  forall (A : Type) (key : A -> nat) (l : list (nat * A)),
    Sorted le_key l ->
    Forall (fun kc => fst kc = key (snd kc)) l ->
    Sorted (fun c c' => (key c <= key c')%nat) (map snd l).
Proof.
  intros A key l H. induction H as [|x l Hl IH Hhd]; intro Hkeys; simpl.
  - constructor.
  - inversion Hkeys as [|? ? Hx Hrest]; subst.
    constructor; [apply IH; exact Hrest|].
    destruct l as [|y l]; simpl; constructor.
    inversion Hhd as [|? ? Hxy]; subst. inversion Hrest as [|? ? Hy _]; subst.
    unfold le_key in Hxy. rewrite <- Hx, <- Hy. exact Hxy.
Qed.

Lemma index_of_member :
  forall segs s, In s segs -> exists k, index segs (Some s) = Some k.
Proof.
  induction segs as [|h segs IH]; intros s Hin.
  - destruct Hin.
  - simpl. destruct (same_object h s) eqn:Hsame.
    + eauto.
    + destruct Hin as [E | Hin].
      * subst h. unfold same_object in Hsame. rewrite Nat.eqb_refl in Hsame.
        discriminate Hsame.
      * destruct (IH s Hin) as [k Hk]. rewrite Hk. simpl. eauto.
Qed.

Lemma sort_keys_of_members :
  forall segs clips,
    Forall (fun c => exists s, transcript_segment c = Some s /\ In s segs) clips ->
    exists keyed,
      sort_keys segs clips = Some keyed
      /\ map snd keyed = clips
      /\ Forall (fun kc => fst kc = sort_key segs (snd kc)) keyed.
Proof.
  intros segs clips H.
  induction H as [|c clips (s & Hs & Hin) _ (keyed & Hk & Hsnd & Hkeys)]; simpl.
  - exists []. repeat split. constructor.
  - destruct (index_of_member segs s Hin) as [k Hidx].
    rewrite Hs, Hidx, Hk. exists ((k, c) :: keyed). simpl.
    rewrite Hsnd. repeat split.
    constructor; [|exact Hkeys]. simpl. unfold sort_key. rewrite Hs, Hidx.
    reflexivity.
Qed.

Lemma clips_come_from_the_transcript :
  forall segs clips,
    Forall2 (fun s c => transcript_segment c = Some s) segs clips ->
    Forall (fun c => exists s, transcript_segment c = Some s /\ In s segs) clips.
Proof.
  intros segs clips H. apply Forall_forall. intros c Hin.
  destruct (In_nth_error _ _ Hin) as [i Hi].
  destruct (Forall2_nth_error_r _ _ _ _ _ _ _ H Hi) as (s & Hs & Hc).
  exists s. split; [exact Hc | eapply nth_error_In; exact Hs].
Qed.

Lemma store_then_sort_any :
  forall m t arrivals clips,
    transcript (self m) = Some t ->
    Forall2 (fun s c => transcript_segment c = Some s) (segments t) clips ->
    Permutation arrivals clips ->
    exists stored,
      (update (set_audio_segments arrivals) ;;; sort_audio_segments) m =
        (Return tt,
         mkMachine (set_audio_segments stored (self m)) (next_oid m) (trace m))
      /\ Permutation stored clips
      /\ Sorted (fun c c' => (sort_key (segments t) c <= sort_key (segments t) c')%nat)
                stored.
Proof.
  intros m t arrivals clips Ht Hsrc Hperm.
  assert (Hmembers :
    Forall (fun c => exists s, transcript_segment c = Some s
                               /\ In s (segments t)) arrivals).
  { eapply Permutation_Forall; [symmetry; exact Hperm|].
    apply clips_come_from_the_transcript. exact Hsrc. }
  destruct (sort_keys_of_members _ _ Hmembers) as (keyed & Hk & Hsnd & Hkeys).
  exists (map snd (list_sort keyed)).
  split; [|split].
  - unfold bind, update, sort_audio_segments. simpl. rewrite Ht, Hk.
    reflexivity.
  - etransitivity; [|exact Hperm]. rewrite <- Hsnd.
    apply Permutation_map. apply list_sort_permutation.
  - apply sorted_by_key_of_value.
    + apply list_sort_sorted.
    + eapply Permutation_Forall; [|exact Hkeys].
      symmetry. apply list_sort_permutation.
Qed.

(** X17.  Whatever the transcript, repeated segment objects included: for
    every number of jobs of at least 1 and every completion order, a run
    of [build_audio_segments] whose calls all succeed stores each
    synthesized clip exactly once (N clips for N segments), ordered by the
    first position of the clip's segment in the transcript. *)
Theorem every_segment_gets_its_clip :
  forall n_jobs m t clips,
    transcript (self m) = Some t ->
    1 <= effective_n_jobs n_jobs (self m) ->
    Permutation (completion_order (length (segments t)))
                (seq 0 (length (segments t))) ->
    Forall2 (fun s c => synthesis_call (self m) s = Return c)
            (segments t) clips ->
    exists stored,
      build_audio_segments_body n_jobs m =
        (Return tt,
         mkMachine (set_audio_segments stored (self m)) (next_oid m) (trace m))
      /\ Permutation stored clips
      /\ length stored = length (segments t)
      /\ Sorted (fun c c' => (sort_key (segments t) c <= sort_key (segments t) c')%nat)
                stored.
Proof.
  intros n_jobs m t clips Ht Hjobs Hperm Hcalls.
  assert (Hlen : length clips = length (segments t))
    by (symmetry; eapply Forall2_length; exact Hcalls).
  pose proof (clips_remember_their_segments _ _ _ Hcalls) as Hsrc.
  assert (Hgoal : forall arrivals,
    Permutation arrivals clips ->
    build_audio_segments_body n_jobs m =
      (update (set_audio_segments arrivals) ;;; sort_audio_segments) m ->
    exists stored,
      build_audio_segments_body n_jobs m =
        (Return tt,
         mkMachine (set_audio_segments stored (self m)) (next_oid m) (trace m))
      /\ Permutation stored clips
      /\ length stored = length (segments t)
      /\ Sorted (fun c c' => (sort_key (segments t) c <= sort_key (segments t) c')%nat)
                stored).
  { intros arrivals Harr Hbody.
    destruct (store_then_sort_any m t arrivals clips Ht Hsrc Harr)
      as (stored & Hrun & Hp & Hs).
    exists stored. rewrite Hbody. repeat split; try assumption.
    rewrite <- Hlen. apply Permutation_length. exact Hp. }
  unfold synthesis_call in Hcalls.
  destruct (tts_has_async (self m)) eqn:Hpath.
  - apply (Hgoal clips (Permutation_refl _)).
    unfold build_audio_segments_body. rewrite Hpath.
    replace (effective_n_jobs n_jobs (self m) <? 0) with false
      by (symmetry; apply Z.ltb_ge; lia).
    rewrite Ht. rewrite (Forall2_map_Return _ _ _ _ _ Hcalls).
    destruct clips as [|c clips]; [reflexivity|].
    cbv beta iota zeta.
    change (map Return (c :: clips)) with (Return c :: map Return clips) at 1.
    cbv beta iota.
    replace (effective_n_jobs n_jobs (self m) =? 0) with false
      by (symmetry; apply Z.eqb_neq; lia).
    rewrite gather_all_returned. reflexivity.
  - apply (Hgoal (map snd (keyed_in clips
                             (completion_order (length (segments t)))))).
    + rewrite <- (map_snd_numbered clips 0) at 2.
      rewrite <- keyed_in_submission_order.
      apply Permutation_map. unfold keyed_in. apply Permutation_flat_map.
      rewrite Hlen. exact Hperm.
    + unfold build_audio_segments_body. rewrite Hpath.
      replace (effective_n_jobs n_jobs (self m) <=? 0) with false
        by (symmetry; apply Z.leb_gt; lia).
      rewrite Ht. cbv zeta. rewrite length_map.
      rewrite (Forall2_map_Return _ _ _ _ _ Hcalls).
      rewrite collect_completed_all_returned. reflexivity.
Qed.

(** ** The first two stages, one after the other *)

(** X18.  Inside a rework scope, [build_transcript] followed by
    [build_audio_segments]: the segments the first one makes are fresh,
    hence distinct, objects, so that when all calls succeed the second one
    stores one clip per generated pair, in the order of the pairs,
    whatever the completion order.  The state is not changed by either. *)
Theorem transcript_then_audio_segments_in_rework :
  forall n_jobs m generated clips,
    _reworking (self m) = true ->
    state (self m) <> STITCHED ->
    generate_text (llm_backend (self m)) (content (self m)) = Return generated ->
    1 <= effective_n_jobs n_jobs (self m) ->
    Permutation (completion_order (length generated))
                (seq 0 (length generated)) ->
    Forall2 (fun s c => synthesis_call (self m) s = Return c)
            (make_segments (next_oid m) generated) clips ->
    (build_transcript ;;; build_audio_segments n_jobs) m =
      (Return tt,
       mkMachine
         (set_audio_segments clips
            (set_transcript
               (Some (mkTranscript (make_segments (next_oid m) generated)
                                   [("source", "Generated content")]))
               (self m)))
         (next_oid m + length generated)%nat (trace m))
    /\ map (fun c => option_map (fun s => (speaker s, text s))
                                (transcript_segment c)) clips
       = map Some generated.
Proof.
  intros n_jobs m generated clips Hr Hs Hgen Hjobs Hperm Hcalls.
  destruct (make_segments_one_to_one generated (next_oid m))
    as (Hlen & Hpairs & _ & Hoid).
  split.
  - unfold bind, build_transcript.
    rewrite (podcast_stage_reworking fn_build_transcript None m
               (mkMachine
                  (set_transcript
                     (Some (mkTranscript (make_segments (next_oid m) generated)
                                         [("source", "Generated content")]))
                     (self m))
                  (next_oid m + length generated)%nat (trace m)) Hr Hs).
    + rewrite (build_audio_segments_in_rework n_jobs _
                 (mkTranscript (make_segments (next_oid m) generated)
                               [("source", "Generated content")]) clips);
        try assumption; try reflexivity.
      * simpl. rewrite Hoid. apply seq_NoDup.
      * simpl. rewrite Hlen. exact Hperm.
    + simpl. unfold build_transcript_body. rewrite Hgen. cbv zeta.
      rewrite Hlen. reflexivity.
  - pose proof (clips_remember_their_segments _ _ _ Hcalls) as Hsrc.
    rewrite <- Hpairs. clear - Hsrc. revert Hsrc.
    generalize (make_segments (next_oid m) generated). intros segs Hsrc.
    induction Hsrc as [|s c segs clips Hc _ IH]; simpl.
    + reflexivity.
    + rewrite Hc, IH. reflexivity.
Qed.

(** ** Saving the audio *)

(** X19.  [save] returns normally exactly when the state is [STITCHED] and
    [audio] holds a pydub object of non-zero length; it then exports that
    object once to the given file and changes nothing in the podcast.  In
    every other case it raises and has no effect at all. *)
Theorem save_exports_exactly_stitched_audio :
  forall file m,
    ((exists m', save file m = (Return tt, m'))
     <-> (state (self m) = STITCHED
          /\ exists a, audio (self m) = PyAudio a /\ pydub_len a <> 0))
    /\ (forall m', save file m = (Return tt, m') ->
        exists a, audio (self m) = PyAudio a
                  /\ m' = mkMachine (self m) (next_oid m)
                                    (trace m ++ [Exported file a]))
    /\ (forall e m', save file m = (Raise e, m') -> m' = m).
Proof.
  intros file m.
  assert (Hcases :
    (exists a, state (self m) = STITCHED /\ audio (self m) = PyAudio a
               /\ pydub_len a <> 0
               /\ save file m =
                    (Return tt, mkMachine (self m) (next_oid m)
                                          (trace m ++ [Exported file a])))
    \/ (~ (state (self m) = STITCHED
           /\ exists a, audio (self m) = PyAudio a /\ pydub_len a <> 0)
        /\ exists e, save file m = (Raise e, m))).
  { unfold save, emit.
    destruct (state (self m)); simpl;
      try (right; split; [intros [H _]; discriminate H | eexists; reflexivity]).
    destruct (audio (self m)) as [|z|a]; simpl.
    - right. split; [intros [_ (a & Ha & _)]; discriminate Ha
                    | eexists; reflexivity].
    - right. split; [intros [_ (a & Ha & _)]; discriminate Ha|].
      destruct (z =? 0); eexists; reflexivity.
    - destruct (Z.eqb_spec (pydub_len a) 0) as [Hz|Hnz]; simpl.
      + right. split; [|eexists; reflexivity].
        intros [_ (a' & Ha & Hlen)]. inversion Ha; subst. contradiction.
      + left. exists a. repeat split. exact Hnz. }
  destruct Hcases as [(a & Hs & Ha & Hlen & Hsave) | (Hnot & e & Hsave)];
    rewrite Hsave.
  - split; [split|split].
    + intros _. split; [exact Hs | exists a; split; assumption].
    + intros _. eexists; reflexivity.
    + intros m' H. inversion H. exists a. split; [exact Ha | reflexivity].
    + intros e m' H. discriminate H.
  - split; [split|split].
    + intros [m' H]. discriminate H.
    + intro H. contradiction.
    + intros m' H. discriminate H.
    + intros e' m' H. inversion H. reflexivity.
Qed.
End Pipeline.

(** * The properties on the usage example *)

(** Witness of C1: the podcast of the usage example, right after its
    construction. *)
Lemma finalize_does_not_terminate_witness :
  fst (finalize dummy_from_file in_submission_order 1000 new_machine) = Unfinished
  /\ self (snd (finalize dummy_from_file in_submission_order 1000 new_machine))
     = new_podcast.
Proof.
  apply (finalize_does_not_terminate dummy_from_file in_submission_order
           1000 new_machine).
  - reflexivity.
  - simpl. discriminate.
Defined.

(** Witness of C2: the first step of the usage example. *)
Lemma build_transcript_stays_INITIALIZED_witness :
  fst (build_transcript dummy_from_file in_submission_order new_machine) = Return tt
  /\ state (self (snd (build_transcript dummy_from_file in_submission_order
                                        new_machine))) = INITIALIZED.
Proof.
  destruct (build_transcript_stays_INITIALIZED dummy_from_file in_submission_order
              new_machine
              [ ("Host", "Welcome to our podcast!");
                ("Guest", "Thanks for having me!") ]
              eq_refl eq_refl) as (H1 & H2 & _).
  split; [exact H1 | exact H2].
Defined.

(** C3 fails as stated: with the same segment object at positions 0 and 2
    of the transcript, a successful run stores three clips whose segments
    are, in order, those at positions 0, 0 and 1. *)
Lemma repeated_segment_breaks_the_order :
  let out := build_audio_segments dummy_from_file in_submission_order None
               (transcript_machine DummyTTSBackend repeating_transcript true) in
  fst out = Return tt
  /\ length (audio_segments (self (snd out))) = 3%nat
  /\ map transcript_segment (audio_segments (self (snd out)))
     = [Some host_segment; Some host_segment; Some guest_segment]
  /\ map transcript_segment (audio_segments (self (snd out)))
     <> map Some (segments repeating_transcript).
Proof.
  vm_compute. repeat split. intro H. discriminate H.
Qed.

(** Witness of C3: two jobs, the guest's clip arriving first. *)
Lemma clips_follow_transcript_order_witness :
  build_audio_segments_body dummy_from_file latest_first (Some 2)
    (transcript_machine DummyTTSBackend dummy_transcript true)
  = (Return tt,
     mkMachine
       (set_audio_segments [clip_of host_segment; clip_of guest_segment]
          (podcast_with_transcript DummyTTSBackend dummy_transcript true))
       2 [])
  /\ length [clip_of host_segment; clip_of guest_segment]
     = length (segments dummy_transcript)
  /\ map transcript_segment [clip_of host_segment; clip_of guest_segment]
     = map Some (segments dummy_transcript).
Proof.
  apply (clips_follow_transcript_order dummy_from_file latest_first (Some 2)
           (transcript_machine DummyTTSBackend dummy_transcript true)
           dummy_transcript [clip_of host_segment; clip_of guest_segment]).
  - reflexivity.
  - simpl. repeat constructor; simpl; intuition discriminate.
  - simpl. lia.
  - simpl. apply perm_swap.
  - repeat constructor; vm_compute; reflexivity.
Defined.

(** C4.  A blocking backend, two segments, the call for the second one
    failing after the first clip has arrived: [build_audio_segments] raises
    the backend's own exception, and [audio_segments] holds the one clip
    that arrived, in a podcast whose state is still [TRANSCRIPT_BUILT]. *)
Theorem failed_synthesis_leaves_partial_clips :
  let out := build_audio_segments dummy_from_file in_submission_order None
               (transcript_machine FlakyTTSBackend dummy_transcript true) in
  fst out = Raise (mkExc BackendError "synthesis failed")
  /\ audio_segments (self (snd out)) = [clip_of host_segment]
  /\ state (self (snd out)) = TRANSCRIPT_BUILT.
Proof.
  vm_compute. repeat split.
Qed.

(** C5.  The rework round trip on a completed podcast: rewinding to
    [TRANSCRIPT_BUILT], appending one segment and leaving the scope with
    [auto_finalize] never returns; after any number of iterations of the
    [finalize] in the exit clause the transcript has its three segments,
    no clip has been built and the state is [TRANSCRIPT_BUILT].  The same
    happens when [finalize] is called by hand after a scope without
    [auto_finalize]. *)
Theorem rework_round_trip_never_finishes :
  forall fuel,
    let block := append_segment "This is a new segment" "Host" in
    let out := rework dummy_from_file in_submission_order fuel
                      TRANSCRIPT_BUILT true block stitched_machine in
    let by_hand := (rework dummy_from_file in_submission_order fuel
                           TRANSCRIPT_BUILT false block
                    ;;; finalize dummy_from_file in_submission_order fuel)
                     stitched_machine in
    (fst out = Unfinished
     /\ audio_segments (self (snd out)) = []
     /\ state (self (snd out)) = TRANSCRIPT_BUILT
     /\ option_map (fun t => length (segments t)) (transcript (self (snd out)))
        = Some 3%nat)
    /\ (fst by_hand = Unfinished
        /\ audio_segments (self (snd by_hand)) = []
        /\ state (self (snd by_hand)) = TRANSCRIPT_BUILT).
Proof.
  intros fuel block out by_hand. split.
  - destruct (rework_auto_finalize_never_exits dummy_from_file
                in_submission_order fuel TRANSCRIPT_BUILT block stitched_machine
                (Return tt)
                (snd (block (snd (rework_enter TRANSCRIPT_BUILT stitched_machine)))))
      as (m3 & Hout & Hself).
    + vm_compute. reflexivity.
    + discriminate.
    + vm_compute. reflexivity.
    + subst out. rewrite Hout. simpl fst. simpl snd. rewrite Hself.
      vm_compute. repeat split.
  - subst by_hand. unfold bind.
    assert (Hscope :
      rework dummy_from_file in_submission_order fuel TRANSCRIPT_BUILT false
             block stitched_machine
      = (Return tt,
         warned STITCHED
           (snd (block (snd (rework_enter TRANSCRIPT_BUILT stitched_machine)))))).
    { rewrite (rework_block_ended dummy_from_file in_submission_order fuel
                 TRANSCRIPT_BUILT false block stitched_machine (Return tt)
                 (snd (block (snd (rework_enter TRANSCRIPT_BUILT stitched_machine)))));
        [| vm_compute; reflexivity | discriminate].
      rewrite rework_exit_cases. reflexivity. }
    rewrite Hscope.
    rewrite (finalize_skips_for_ever dummy_from_file in_submission_order fuel _
               fn_build_audio_segments); [| reflexivity | reflexivity].
    vm_compute. repeat split.
Qed.

(** Witness of C6: a block that appends a segment and then raises, in a
    scope without [auto_finalize] entered on a completed podcast. *)
Lemma rework_exit_logic_always_runs_witness :
  let out := rework dummy_from_file in_submission_order 3
                    TRANSCRIPT_BUILT false failing_block stitched_machine in
  _reworking (self (snd out)) = false
  /\ fst out = Raise (mkExc ValueError "edit failed").
Proof.
  destruct (rework_exit_logic_always_runs dummy_from_file in_submission_order 3
              TRANSCRIPT_BUILT false failing_block stitched_machine
              (Raise (mkExc ValueError "edit failed"))
              (snd (failing_block
                      (snd (rework_enter TRANSCRIPT_BUILT stitched_machine)))))
    as (Hflag & _ & Hadvisory & _).
  - vm_compute. reflexivity.
  - discriminate.
  - split.
    + exact Hflag.
    + rewrite Hadvisory; [reflexivity | simpl; lia | reflexivity].
Defined.

(** Witness of C7: the first stage function, called on a completed
    podcast. *)
Lemma stage_call_in_STITCHED_raises_KeyError_witness :
  build_transcript dummy_from_file in_submission_order stitched_machine
  = (Raise (KeyError_on STITCHED), stitched_machine).
Proof.
  apply (stage_call_in_STITCHED_raises_KeyError dummy_from_file
           in_submission_order fn_build_transcript None stitched_machine).
  reflexivity.
Defined.

(** C8 fails as stated: stitching no clips raises nothing, whether the
    call is made inside a rework scope or outside. *)
Lemma stitching_no_clips_raises_nothing :
  (forall e, fst (stitch_audio_segments dummy_from_file in_submission_order
                    (no_clips_machine true)) <> Raise e)
  /\ (forall e, fst (stitch_audio_segments dummy_from_file in_submission_order
                       (no_clips_machine false)) <> Raise e).
Proof.
  split; intro e; vm_compute; discriminate.
Qed.

(** Witness of C8 (as amended): inside a rework scope. *)
Lemma stitching_no_clips_does_not_fail_witness :
  fst (stitch_audio_segments dummy_from_file in_submission_order
         (no_clips_machine true)) = Return tt
  /\ (audio (self (snd (stitch_audio_segments dummy_from_file in_submission_order
                          (no_clips_machine true)))) = PyInt 0
      \/ audio (self (snd (stitch_audio_segments dummy_from_file
                             in_submission_order (no_clips_machine true))))
         = audio (self (no_clips_machine true))).
Proof.
  apply (stitching_no_clips_does_not_fail dummy_from_file in_submission_order
           (no_clips_machine true)); reflexivity.
Defined.

(** Witness of C10: the blocking backend of the usage example, with two
    default jobs and with one. *)
Lemma constructor_raises_for_blocking_backend_with_jobs_witness :
  (exists e, fst (Podcast__init__ sample_content DummyLLMBackend
                    DummyTTSBackend 2) = Raise e
             /\ exc_type e = TypeError)
  /\ (exists p, fst (Podcast__init__ sample_content DummyLLMBackend
                       DummyTTSBackend 1) = Return p
                /\ state p = INITIALIZED).
Proof.
  split.
  - apply (proj1 (constructor_raises_for_blocking_backend_with_jobs
                    sample_content DummyLLMBackend DummyTTSBackend 2)).
    + reflexivity.
    + lia.
  - destruct (proj2 (constructor_raises_for_blocking_backend_with_jobs
                       sample_content DummyLLMBackend DummyTTSBackend 1)
                (or_introl eq_refl)) as (p & Hp & Hs & _).
    exists p. split; assumption.
Defined.

(** * Further properties, outside the pipeline section *)

(** ** The audio property, for any two decoders *)

(** X20.  Once the [audio] property of a clip has returned, later accesses
    return the same audio and leave the clip as it is without decoding
    anything: whatever has become of the file, the answer is the cached
    one. *)
Theorem loaded_audio_is_never_decoded_again :
  forall from_file from_file' x a x',
    AudioSegment_audio from_file x = (Return a, x') ->
    AudioSegment_audio from_file' x' = (Return a, x').
Proof.
  intros from_file from_file' x a x'. unfold AudioSegment_audio.
  destruct (_audio x) as [a0|] eqn:Hcache.
  - intro H. inversion H; subst. rewrite Hcache. reflexivity.
  - destruct (from_file (filepath x)) as [a0|e|]; try discriminate.
    destruct (_ =? _); try discriminate.
    intro H. inversion H; subst. reflexivity.
Qed.

(** ** The text of a transcript *)

Lemma string_append_assoc :
  forall s1 s2 s3 : string, ((s1 ++ s2) ++ s3 = s1 ++ (s2 ++ s3))%string.
Proof.
  induction s1 as [|c s1 IH]; intros s2 s3; simpl.
  - reflexivity.
  - rewrite IH. reflexivity.
Qed.

Lemma concat_one_more :
  forall (sep x y : string) (l : list string),
    String.concat sep ((x :: l) ++ [y])
    = (String.concat sep (x :: l) ++ sep ++ y)%string.
Proof.
  intros sep x y l. revert x. induction l as [|z l IH]; intro x.
  - reflexivity.
  - change (String.concat sep ((x :: z :: l) ++ [y]))
      with (x ++ sep ++ String.concat sep ((z :: l) ++ [y]))%string.
    rewrite IH.
    change (String.concat sep (x :: z :: l))
      with (x ++ sep ++ String.concat sep (z :: l))%string.
    rewrite !string_append_assoc. reflexivity.
Qed.

(** X21.  Appending a segment to a transcript appends one line,
    [speaker: text], to its text and changes nothing before it; the line
    is set off by a newline unless it is the first one. *)
Theorem appended_segment_is_the_last_line :
  forall t seg,
    Transcript_str (mkTranscript (segments t ++ [seg]) (metadata t)) =
      match segments t with
      | [] => (Transcript_str t ++ speaker seg ++ ": " ++ text seg)%string
      | _ :: _ =>
          (Transcript_str t ++ nl ++ speaker seg ++ ": " ++ text seg)%string
      end.
Proof.
  intros t seg. unfold Transcript_str. cbn [segments metadata].
  destruct (segments t) as [|s segs].
  - simpl. rewrite !string_append_assoc. reflexivity.
  - rewrite map_app.
    change (map (fun s0 => (speaker s0 ++ ": " ++ text s0)%string) (s :: segs))
      with ((speaker s ++ ": " ++ text s)%string
            :: map (fun s0 => (speaker s0 ++ ": " ++ text s0)%string) segs).
    change (map (fun s0 => (speaker s0 ++ ": " ++ text s0)%string) [seg])
      with [(speaker seg ++ ": " ++ text seg)%string].
    rewrite concat_one_more. rewrite !string_append_assoc. reflexivity.
Qed.

(** ** The configuration module *)

Lemma Config__init__returned :
  forall w c made,
    Config__init__ w = (Return c, made) ->
    exists d dirs t a,
      config_yaml w = Return (YMap d)
      /\ lookup d "output_directories" = Some (YMap dirs)
      /\ lookup dirs "transcripts" = Some (YStr t)
      /\ lookup dirs "audio" = Some (YStr a)
      /\ makedirs w t = Return tt
      /\ makedirs w a = Return tt
      /\ made = [MadeDirs t; MadeDirs a]
      /\ c = mkConfig (getenv_or_empty w "JINA_API_KEY")
                      (getenv_or_empty w "GEMINI_API_KEY")
                      (getenv_or_empty w "OPENAI_API_KEY")
                      (getenv_or_empty w "ELEVENLABS_API_KEY")
                      (YMap d) (YStr t) (YStr a).
Proof.
  intros w c made. unfold Config__init__.
  destruct (config_yaml w) as [cfg|e|]; try discriminate.
  destruct cfg as [|b|z|s|l|d]; simpl; try discriminate.
  destruct (lookup d "output_directories") as [dirs|] eqn:Hdirs; simpl;
    try discriminate.
  destruct dirs as [|b|z|s|l|dirs]; simpl; try discriminate.
  destruct (lookup dirs "transcripts") as [tv|] eqn:Ht; simpl;
    try discriminate.
  destruct (lookup dirs "audio") as [av|] eqn:Ha; simpl; try discriminate.
  destruct tv as [|b|z|t|l|dd]; simpl; try discriminate.
  destruct (makedirs w t) as [[]|e|] eqn:Hmt; try discriminate.
  destruct av as [|b|z|a|l|dd]; simpl; try discriminate.
  destruct (makedirs w a) as [[]|e|] eqn:Hma; try discriminate.
  intro H. inversion H; subst.
  exists d, dirs, t, a. repeat split; assumption.
Qed.


(** X23.  When the [output_directories] mapping does not name one of the
    two directories, construction raises KeyError and makes no directory
    at all, not even the one that is named: both are looked up before
    either is made. *)
Theorem Config_makes_no_directory_when_one_is_not_named :
  forall w d dirs,
    config_yaml w = Return (YMap d) ->
    lookup d "output_directories" = Some (YMap dirs) ->
    lookup dirs "transcripts" = None \/ lookup dirs "audio" = None ->
    exists e, Config__init__ w = (Raise e, []) /\ exc_type e = KeyError.
Proof.
  intros w d dirs Hy Hdirs Hmissing. unfold Config__init__.
  rewrite Hy. simpl. rewrite Hdirs. simpl.
  destruct (lookup dirs "transcripts") as [tv|]; simpl.
  - destruct Hmissing as [Ht | Ha]; [discriminate Ht|].
    rewrite Ha. simpl. eexists; split; reflexivity.
  - eexists; split; reflexivity.
Qed.

(** X24.  [Config.get] answers from the loaded file alone and never
    raises on a configuration that was built: it returns the file's
    binding of the key, or the default.  The API keys taken from the
    environment are attributes only, out of reach of [get]. *)
Theorem Config_get_reads_only_the_file :
  forall w c made key default,
    Config__init__ w = (Return c, made) ->
    exists d,
      config_yaml w = Return (YMap d)
      /\ Config_get c key default
         = Return (match lookup d key with
                   | Some v => v
                   | None => default
                   end)
      /\ JINA_API_KEY c = getenv_or_empty w "JINA_API_KEY"
      /\ GEMINI_API_KEY c = getenv_or_empty w "GEMINI_API_KEY"
      /\ OPENAI_API_KEY c = getenv_or_empty w "OPENAI_API_KEY"
      /\ ELEVENLABS_API_KEY c = getenv_or_empty w "ELEVENLABS_API_KEY".
Proof.
  intros w c made key default H.
  destruct (Config__init__returned w c made H)
    as (d & dirs & t & a & H1 & _ & _ & _ & _ & _ & _ & Hc).
  exists d. subst c. unfold Config_get. simpl.
  destruct (lookup d key); repeat split; assumption.
Qed.

Lemma status_lines_not_set :
  forall c d keys,
    config c = YMap d ->
    (forall key, In key keys -> lookup d key = None) ->
    status_lines c keys
    = Return (map (fun key => (key ++ ": Not set")%string) keys)
    /\ missing_config c keys = Return keys.
Proof.
  intros c d keys Hc. induction keys as [|key keys IH]; intro Hnone; simpl.
  - split; reflexivity.
  - destruct IH as [IH1 IH2].
    { intros k Hk. apply Hnone. right. exact Hk. }
    unfold status_line, Config_get. rewrite Hc.
    rewrite (Hnone key (or_introl eq_refl)). simpl.
    rewrite IH1, IH2. split; reflexivity.
Qed.

(** X25.  [main] judges the six settings by the loaded file, not by the
    environment: when the file binds none of them, it reports each as not
    set and lists all six as missing, whatever the environment holds. *)
Theorem main_reports_settings_of_the_file_only :
  forall str_of seed w c made d,
    load_config w = (Return c, made) ->
    config_yaml w = Return (YMap d) ->
    (forall key, In key checked_keys -> lookup d key = None) ->
    main str_of seed w =
      (Return tt,
       made ++ map PrintedLine
         (["Testing Config class:"]
          ++ map (fun key => (key ++ ": Not set")%string) checked_keys
          ++ [(nl ++ "Warning: The following configuration values are missing:")%string]
          ++ map (fun key => ("- " ++ key)%string) checked_keys
          ++ ["Please ensure these are set in your .env file.";
              (nl ++ "Testing get method with default value:")%string;
              ("NON_EXISTENT_KEY: "
               ++ str_of (match lookup d "NON_EXISTENT_KEY" with
                          | Some v => v
                          | None => YStr "Default Value"
                          end))%string])).
Proof.
  intros str_of seed w c made d Hload Hy Hnone.
  unfold main. rewrite Hload.
  unfold load_config in Hload.
  destruct (Config__init__returned w c made Hload)
    as (d' & dirs & t & a & H1 & _ & _ & _ & _ & _ & _ & Hc).
  rewrite Hy in H1. inversion H1; subst d'.
  assert (Hcfg : config c = YMap d) by (subst c; reflexivity).
  destruct (status_lines_not_set c d checked_keys Hcfg Hnone) as [Hs Hm].
  unfold main_report. rewrite Hs, Hm. unfold and_then at 1 2.
  unfold Config_get. rewrite Hcfg.
  destruct (lookup d "NON_EXISTENT_KEY"); reflexivity.
Qed.

(** * The further properties on examples *)

(** Witness of X1: rewinding a completed podcast by way of [STITCHED]. *)
Lemma reset_to_state_twice_witness :
  (reset_to_state STITCHED ;;; reset_to_state TRANSCRIPT_BUILT) stitched_machine
  = reset_to_state TRANSCRIPT_BUILT stitched_machine.
Proof.
  apply (reset_to_state_twice STITCHED TRANSCRIPT_BUILT stitched_machine).
  simpl. lia.
Defined.

(** Witness of X2: a completed podcast rewound to [TRANSCRIPT_BUILT]. *)
Lemma reset_to_state_leaves_no_later_data_witness :
  audio_segments (self (snd (reset_to_state TRANSCRIPT_BUILT stitched_machine))) = []
  /\ transcript (self (snd (reset_to_state TRANSCRIPT_BUILT stitched_machine)))
     = Some dummy_transcript.
Proof.
  destruct (reset_to_state_leaves_no_later_data TRANSCRIPT_BUILT stitched_machine)
    as (_ & _ & (_ & Hclips & _) & Htranscript & _).
  split.
  - apply Hclips. simpl. lia.
  - apply Htranscript. simpl. lia.
Defined.

(** Witness of X3: the fresh podcast of the usage example. *)
Lemma reset_forward_then_save_raises_witness :
  exists m',
    (reset_to_state STITCHED ;;; save "./final.mp3") new_machine =
      (Raise (mkExc ValueError "No stitched audio to save"), m')
    /\ state (self m') = STITCHED
    /\ audio (self m') = audio (self new_machine)
    /\ trace m' = trace new_machine.
Proof.
  apply (reset_forward_then_save_raises "./final.mp3" new_machine).
  reflexivity.
Defined.

(** Witness of X4: a scope aiming at [STITCHED], entered on a fresh
    podcast. *)
Lemma rework_enter_never_moves_forward_witness :
  snd (rework_enter STITCHED new_machine) = new_machine_in_rework.
Proof.
  destruct (rework_enter_never_moves_forward STITCHED new_machine)
    as (_ & _ & _ & Hsame).
  apply Hsame. simpl. lia.
Defined.

(** Witness of X5: after a scope whose block failed. *)
Lemma stage_call_after_a_scope_is_skipped_witness :
  fst (build_audio_segments dummy_from_file in_submission_order None
         (snd (rework dummy_from_file in_submission_order 3 TRANSCRIPT_BUILT
                      false failing_block stitched_machine)))
  = Return tt.
Proof.
  unfold build_audio_segments.
  rewrite (stage_call_after_a_scope_is_skipped dummy_from_file
             in_submission_order 3 TRANSCRIPT_BUILT false failing_block
             fn_build_audio_segments None stitched_machine
             (fst (rework dummy_from_file in_submission_order 3
                          TRANSCRIPT_BUILT false failing_block stitched_machine))
             (snd (rework dummy_from_file in_submission_order 3
                          TRANSCRIPT_BUILT false failing_block stitched_machine))).
  - reflexivity.
  - apply surjective_pairing.
  - vm_compute. discriminate.
  - vm_compute. discriminate.
Defined.

(** Witness of X7: a completed podcast. *)
Lemma finalize_returns_iff_STITCHED_witness :
  fst (finalize dummy_from_file in_submission_order 1 stitched_machine)
  = Return tt.
Proof.
  apply (proj1 (finalize_returns_iff_STITCHED dummy_from_file
                  in_submission_order 0 stitched_machine)).
  reflexivity.
Defined.

(** Witness of X8: a clip claiming 500 ms for a file of 1000 ms. *)
Lemma length_check_only_on_first_access_witness :
  exists e,
    AudioSegment_audio dummy_from_file mislabelled_clip
    = (Raise e, with_audio mislabelled_clip (silent 1000))
    /\ exc_type e = ValueError
    /\ AudioSegment_audio dummy_from_file
         (with_audio mislabelled_clip (silent 1000))
       = (Return (silent 1000), with_audio mislabelled_clip (silent 1000)).
Proof.
  apply (length_check_only_on_first_access dummy_from_file mislabelled_clip
           (silent 1000)).
  - reflexivity.
  - reflexivity.
  - vm_compute. discriminate.
Defined.

(** Witness of X9: the host's clip. *)
Lemma synthesized_clip_passes_length_check_witness :
  exists a,
    AudioSegment_audio dummy_from_file (clip_of host_segment)
    = (Return a, with_audio (clip_of host_segment) a)
    /\ pydub_len a = length_ms (clip_of host_segment)
    /\ transcript_segment (clip_of host_segment) = Some host_segment.
Proof.
  apply (synthesized_clip_passes_length_check dummy_from_file
           (podcast_with_transcript DummyTTSBackend dummy_transcript true)
           host_segment (clip_of host_segment)).
  vm_compute. reflexivity.
Defined.

(** Witness of X10: the two clips of the usage example, two seconds. *)
Lemma stitch_concatenates_clips_in_order_witness :
  exists a,
    audio (self (snd (stitch_audio_segments_body dummy_from_file clips_machine)))
    = PyAudio a
    /\ pydub_len a = 2000.
Proof.
  destruct (stitch_concatenates_clips_in_order dummy_from_file clips_machine)
    as (a & Hrun & _ & Hlen).
  - simpl. discriminate.
  - assert (Hclip : forall s,
              loads_as_labelled dummy_from_file (clip_of s)).
    { intro s. split; [reflexivity|].
      exists (silent 1000). split; [reflexivity | vm_compute; reflexivity]. }
    simpl. constructor; [apply Hclip|]. constructor; [apply Hclip|].
    constructor.
  - exists a. rewrite Hrun. split; [reflexivity | exact Hlen].
Defined.

(** Witness of X11: the same two clips, and a decoder that fails. *)
Lemma failed_stitch_keeps_audio_witness :
  audio (self (snd (stitch_audio_segments_body broken_from_file clips_machine)))
  = audio (self clips_machine).
Proof.
  apply (failed_stitch_keeps_audio broken_from_file clips_machine
           (mkExc BackendError "could not decode")
           (snd (stitch_audio_segments_body broken_from_file clips_machine))).
  vm_compute. reflexivity.
Defined.

(** Witness of X12: the guest's call fails after the host's clip has
    arrived. *)
Lemma thread_pool_failure_keeps_earlier_arrivals_witness :
  build_audio_segments_body dummy_from_file in_submission_order None
    (reworked_machine FlakyTTSBackend 1 dummy_transcript)
  = (Raise (mkExc BackendError "synthesis failed"),
     mkMachine
       (set_audio_segments [clip_of host_segment]
          (reworked_podcast FlakyTTSBackend 1 dummy_transcript))
       2 []).
Proof.
  apply (thread_pool_failure_keeps_earlier_arrivals dummy_from_file
           in_submission_order None
           (reworked_machine FlakyTTSBackend 1 dummy_transcript)
           dummy_transcript [0%nat] 1%nat []
           (mkExc BackendError "synthesis failed")).
  - reflexivity.
  - simpl. lia.
  - reflexivity.
  - reflexivity.
  - constructor; [vm_compute; exact I | constructor].
  - reflexivity.
Defined.

(** Witness of X13: the host's coroutine fails after the guest's clip is
    there. *)
Lemma asyncio_failure_raises_first_and_stores_nothing_witness :
  build_audio_segments_body dummy_from_file latest_first None
    (reworked_machine AsyncFlakyTTSBackend 1 dummy_transcript)
  = (Raise (mkExc BackendError "synthesis failed"),
     reworked_machine AsyncFlakyTTSBackend 1 dummy_transcript).
Proof.
  apply (asyncio_failure_raises_first_and_stores_nothing dummy_from_file
           latest_first None
           (reworked_machine AsyncFlakyTTSBackend 1 dummy_transcript)
           dummy_transcript [1%nat] 0%nat []
           (mkExc BackendError "synthesis failed")).
  - reflexivity.
  - simpl. lia.
  - reflexivity.
  - reflexivity.
  - constructor; [vm_compute; exact I | constructor].
  - reflexivity.
Defined.

(** Witness of X14: a backend with both optional methods and a plain
    [text_to_speech]. *)
Lemma asyncio_path_awaits_text_to_speech_witness :
  snd (build_audio_segments_body dummy_from_file in_submission_order None
         (reworked_machine MixedTTSBackend 1 dummy_transcript))
  = reworked_machine MixedTTSBackend 1 dummy_transcript
  /\ fst (build_audio_segments_body dummy_from_file in_submission_order None
            (reworked_machine MixedTTSBackend 1 dummy_transcript))
     <> Return tt.
Proof.
  apply (asyncio_path_awaits_text_to_speech dummy_from_file in_submission_order
           None (reworked_machine MixedTTSBackend 1 dummy_transcript)
           dummy_transcript
           (fun txt _ => Return ("/tmp/" ++ txt ++ ".mp3")%string)).
  - reflexivity.
  - reflexivity.
  - reflexivity.
  - simpl. discriminate.
Defined.

(** Witness of X15: a negative number of jobs. *)
Lemma jobs_below_one_raise_ValueError_witness :
  exists e,
    build_audio_segments_body dummy_from_file in_submission_order (Some (-1))
      (reworked_machine DummyTTSBackend 1 dummy_transcript)
    = (Raise e, reworked_machine DummyTTSBackend 1 dummy_transcript)
    /\ exc_type e = ValueError.
Proof.
  apply (jobs_below_one_raise_ValueError dummy_from_file in_submission_order
           (Some (-1)) (reworked_machine DummyTTSBackend 1 dummy_transcript)).
  left. simpl. lia.
Defined.

(** Witness of X16: an asynchronous backend and zero default jobs. *)
Lemma zero_jobs_on_asyncio_path_never_return_witness :
  build_audio_segments_body dummy_from_file in_submission_order None
    (reworked_machine AsyncTTSBackend 0 dummy_transcript)
  = (Unfinished, reworked_machine AsyncTTSBackend 0 dummy_transcript).
Proof.
  apply (zero_jobs_on_asyncio_path_never_return dummy_from_file
           in_submission_order None
           (reworked_machine AsyncTTSBackend 0 dummy_transcript)
           dummy_transcript).
  - reflexivity.
  - reflexivity.
  - left. reflexivity.
  - reflexivity.
  - simpl. discriminate.
Defined.

(** Witness of X17: the transcript with the host's segment at both ends. *)
Lemma every_segment_gets_its_clip_witness :
  exists stored,
    build_audio_segments_body dummy_from_file latest_first (Some 2)
      (transcript_machine DummyTTSBackend repeating_transcript true)
    = (Return tt,
       mkMachine
         (set_audio_segments stored
            (podcast_with_transcript DummyTTSBackend repeating_transcript true))
         2 [])
    /\ Permutation stored
         [clip_of host_segment; clip_of guest_segment; clip_of host_segment]
    /\ length stored = 3%nat.
Proof.
  destruct (every_segment_gets_its_clip dummy_from_file latest_first (Some 2)
              (transcript_machine DummyTTSBackend repeating_transcript true)
              repeating_transcript
              [clip_of host_segment; clip_of guest_segment; clip_of host_segment])
    as (stored & Hrun & Hperm & Hlen & _).
  - reflexivity.
  - simpl. lia.
  - simpl. unfold latest_first. simpl.
    apply Permutation_sym. apply (Permutation_rev [0; 1; 2]%nat).
  - repeat constructor; vm_compute; reflexivity.
  - exists stored. repeat split; assumption.
Defined.

(** Witness of X18: the first two steps of the usage example, made inside
    a rework scope. *)
Lemma transcript_then_audio_segments_in_rework_witness :
  fst ((build_transcript dummy_from_file in_submission_order
        ;;; build_audio_segments dummy_from_file in_submission_order None)
         new_machine_in_rework)
  = Return tt
  /\ audio_segments
       (self (snd ((build_transcript dummy_from_file in_submission_order
                    ;;; build_audio_segments dummy_from_file
                                             in_submission_order None)
                     new_machine_in_rework)))
     = [clip_of host_segment; clip_of guest_segment].
Proof.
  destruct (transcript_then_audio_segments_in_rework dummy_from_file
              in_submission_order None new_machine_in_rework
              [ ("Host", "Welcome to our podcast!");
                ("Guest", "Thanks for having me!") ]
              [clip_of host_segment; clip_of guest_segment])
    as [Hrun _].
  - reflexivity.
  - simpl. discriminate.
  - reflexivity.
  - simpl. lia.
  - simpl. apply Permutation_refl.
  - simpl. repeat constructor; vm_compute; reflexivity.
  - rewrite Hrun. split; reflexivity.
Defined.

(** Witness of X19: the completed podcast is saved. *)
Lemma save_exports_exactly_stitched_audio_witness :
  exists m', save "./final.mp3" stitched_machine = (Return tt, m').
Proof.
  apply (proj1 (save_exports_exactly_stitched_audio "./final.mp3"
                  stitched_machine)).
  split.
  - reflexivity.
  - exists (silent 2000). split; [reflexivity | vm_compute; discriminate].
Defined.

(** Witness of X20: the host's clip, loaded and then looked at with a
    decoder that cannot read anything. *)
Lemma loaded_audio_is_never_decoded_again_witness :
  AudioSegment_audio broken_from_file
    (with_audio (clip_of host_segment) (silent 1000))
  = (Return (silent 1000), with_audio (clip_of host_segment) (silent 1000)).
Proof.
  apply (loaded_audio_is_never_decoded_again dummy_from_file broken_from_file
           (clip_of host_segment)).
  vm_compute. reflexivity.
Defined.


(** Witness of X23: a file naming the transcripts directory only. *)
Lemma Config_makes_no_directory_when_one_is_not_named_witness :
  exists e, Config__init__ half_world = (Raise e, []) /\ exc_type e = KeyError.
Proof.
  apply (Config_makes_no_directory_when_one_is_not_named half_world
           [ ("output_directories",
              YMap [ ("transcripts", YStr "./data/transcripts") ]) ]
           [ ("transcripts", YStr "./data/transcripts") ]).
  - reflexivity.
  - reflexivity.
  - right. reflexivity.
Defined.

(** Witness of X24: the key is in the environment, not in the file. *)
Lemma Config_get_reads_only_the_file_witness :
  Config_get plain_config "JINA_API_KEY" YNull = Return YNull
  /\ JINA_API_KEY plain_config = "secret".
Proof.
  destruct (Config_get_reads_only_the_file plain_world plain_config
              [MadeDirs "./data/transcripts"; MadeDirs "./data/audio"]
              "JINA_API_KEY" YNull eq_refl)
    as (d & Hy & Hget & Hkey & _).
  split.
  - injection Hy as <-. exact Hget.
  - exact Hkey.
Defined.

(** Witness of X25: every API key is in the environment, none in the
    file. *)
Lemma main_reports_settings_of_the_file_only_witness :
  fst (main str_of_scalar 42 plain_world) = Return tt
  /\ In (PrintedLine "- JINA_API_KEY") (snd (main str_of_scalar 42 plain_world)).
Proof.
  rewrite (main_reports_settings_of_the_file_only str_of_scalar 42 plain_world
             plain_config
             [MadeDirs "./data/transcripts"; MadeDirs "./data/audio"]
             [ ("output_directories",
                YMap [ ("transcripts", YStr "./data/transcripts");
                       ("audio", YStr "./data/audio") ]) ]
             eq_refl eq_refl).
  - split; [reflexivity|]. simpl. do 12 right. left. reflexivity.
  - intros key Hin. simpl in Hin.
    repeat (destruct Hin as [<- | Hin]; [reflexivity|]). destruct Hin.
Defined.
